(** * MitreCVE: a shallow embedding of [mitrejson.py] and [mitre_processor2.py]

    The two scripts work on documents returned by Python's [json.load],
    on insertion-ordered dictionaries, and on a [networkx.DiGraph].  The
    embedding keeps these as the code has them:

    - a parsed document is a value of [json]; a Python [dict] is an
      association list whose enumeration order is insertion order, read
      through the first binding of a key ([json.load] returns one binding
      per key);
    - an uncaught Python exception is the [Raise] branch of [result];
    - the module-level FAISS index and the standard output are passed
      explicitly;
    - the file system, the JSON decoder, the sentence encoder, the row
      normalization of FAISS and [str.lower] are external: they are
      section variables.

    A Python [str] is modelled by its UTF-8 encoding, JSON numbers by the
    integers. *)

From Stdlib Require Import String Ascii List ZArith Bool Lia Permutation.
Import ListNotations.
Open Scope string_scope.
Open Scope list_scope.

(** ** Python values, exceptions, truthiness *)

Module Py.

#[warnings="-register-all"] Inductive json : Type :=
| JNull
| JBool (b : bool)
| JNum (z : Z)
| JStr (s : string)
| JArr (items : list json)
| JObj (fields : list (string * json)).

Inductive exn : Type :=
| TypeError
| AttributeError
| ValueError
| KeyError
| IndexError
| FileNotFoundError
| OSError
| UnicodeDecodeError
| JSONDecodeError.

Inductive result (A : Type) : Type :=
| Ok (a : A)
| Raise (e : exn).
Arguments Ok {A} a.
Arguments Raise {A} e.

Definition bind {A B : Type} (m : result A) (k : A -> result B) : result B :=
  match m with
  | Ok a => k a
  | Raise e => Raise e
  end.

Definition exn_eqb (a b : exn) : bool :=
  match a, b with
  | TypeError, TypeError | AttributeError, AttributeError
  | ValueError, ValueError | KeyError, KeyError | IndexError, IndexError
  | FileNotFoundError, FileNotFoundError | OSError, OSError
  | UnicodeDecodeError, UnicodeDecodeError
  | JSONDecodeError, JSONDecodeError => true
  | _, _ => false
  end.

(** [bool(v)]: [None], [False], [0], the empty string, list and dict are
    falsy. *)
Definition truthy (v : json) : bool :=
  match v with
  | JNull => false
  | JBool b => b
  | JNum z => negb (Z.eqb z 0)
  | JStr s => negb (String.eqb s EmptyString)
  | JArr l => match l with [] => false | _ => true end
  | JObj m => match m with [] => false | _ => true end
  end.

(** [v == s] for a string literal [s]. *)
Definition eq_str (v : json) (s : string) : bool :=
  match v with
  | JStr t => String.eqb t s
  | _ => false
  end.

(** [v in [s1, ..., sn]] for a list of string literals. *)
Definition in_strs (v : json) (l : list string) : bool :=
  existsb (eq_str v) l.

(** [s.endswith(suffix)] *)
Definition endswith (s suffix : string) : bool :=
  let n := String.length s in
  let m := String.length suffix in
  (m <=? n)%nat && String.eqb (substring (n - m) m s) suffix.

(** [needle in s] on strings: substring test. *)
Definition str_contains (needle s : string) : bool :=
  match index 0 needle s with
  | Some _ => true
  | None => false
  end.

Definition lower_ascii (c : ascii) : ascii :=
  let n := nat_of_ascii c in
  if ((65 <=? n) && (n <=? 90))%nat then ascii_of_nat (n + 32) else c.

(** [str.lower] restricted to ASCII text.  The scripts call the library's
    [str.lower], which is a parameter of their embedding; this function is
    the instance used on ASCII examples. *)
Fixpoint ascii_lower (s : string) : string :=
  match s with
  | EmptyString => EmptyString
  | String c r => String (lower_ascii c) (ascii_lower r)
  end.

(** A byte that continues a UTF-8 sequence: 10xxxxxx. *)
Definition is_continuation (c : ascii) : bool :=
  let n := nat_of_ascii c in
  ((128 <=? n) && (n <? 192))%nat.

(** The characters of a string, each as a string ([for c in s]): a lead
    byte together with the continuation bytes that follow it.  [cur] is
    the character being read. *)
Fixpoint chars_from (cur : option string) (s : string) : list json :=
  match s with
  | EmptyString =>
      match cur with
      | Some p => [JStr p]
      | None => []
      end
  | String c r =>
      match cur with
      | Some p =>
          if is_continuation c
          then chars_from (Some (p ++ String c EmptyString)%string) r
          else JStr p :: chars_from (Some (String c EmptyString)) r
      | None => chars_from (Some (String c EmptyString)) r
      end
  end.

Definition chars (s : string) : list json := chars_from None s.

End Py.
Export Py.

Declare Scope py_scope.
Notation "x <- m ;; k" := (bind m (fun x => k))
  (at level 61, m at next level, right associativity) : py_scope.
Open Scope py_scope.

(** ** Insertion-ordered dictionaries *)

Module Dict.
Section Ordered.
Context {K V : Type}.
Variable K_dec : forall a b : K, {a = b} + {a <> b}.

Definition dict := list (K * V).

Definition keys (d : dict) : list K := map fst d.

(** [d.get(k)], [None] when absent *)
Fixpoint get (d : dict) (k : K) : option V :=
  match d with
  | [] => None
  | (k', v) :: r => if K_dec k' k then Some v else get r k
  end.

(** [k in d] *)
Definition mem (d : dict) (k : K) : bool :=
  match get d k with Some _ => true | None => false end.

(** [d[k] = v]: overwrite in place, or append at the end. *)
Fixpoint set (d : dict) (k : K) (v : V) : dict :=
  match d with
  | [] => [(k, v)]
  | (k', v') :: r =>
      if K_dec k' k then (k', v) :: r else (k', v') :: set r k v
  end.

End Ordered.
End Dict.

(** ** Operations on parsed documents *)

Module PyOps.

Definition field (m : list (string * json)) (k : string) : option json :=
  Dict.get string_dec m k.

(** [o.get(k, d)]; only a dict has the method. *)
Definition get_or (o : json) (k : string) (d : json) : result json :=
  match o with
  | JObj m => Ok (match field m k with Some v => v | None => d end)
  | _ => Raise AttributeError
  end.

(** [o[k]] for a string [k] *)
Definition getitem (o : json) (k : string) : result json :=
  match o with
  | JObj m => match field m k with Some v => Ok v | None => Raise KeyError end
  | _ => Raise TypeError
  end.

(** [k in o] for a string [k] *)
Definition contains (o : json) (k : string) : result bool :=
  match o with
  | JObj m => Ok (Dict.mem string_dec m k)
  | JArr l => Ok (existsb (fun v => eq_str v k) l)
  | JStr s => Ok (str_contains k s)
  | _ => Raise TypeError
  end.

(** The elements visited by [for x in o]. *)
Definition iter (o : json) : result (list json) :=
  match o with
  | JArr l => Ok l
  | JObj m => Ok (map (fun kv => JStr (fst kv)) m)
  | JStr s => Ok (chars s)
  | _ => Raise TypeError
  end.

End PyOps.
Export PyOps.

(** ** [networkx.DiGraph]

    networkx keeps three dictionaries with the same keys: [_node]
    (attributes), [_succ] and [_pred] (adjacency, one the mirror of the
    other).  Here a node's entry holds its attributes and its successors. *)

Module Nx.

Inductive key : Type :=
| KStr (s : string)
| KNum (z : Z).

Definition key_dec (a b : key) : {a = b} + {a <> b}.
Proof.
  decide equality; [apply string_dec | apply Z.eq_dec].
Defined.

(** A node must be hashable and not [None]; [True == 1] and [False == 0]
    as dictionary keys. *)
Definition node_key (v : json) : result key :=
  match v with
  | JStr s => Ok (KStr s)
  | JNum z => Ok (KNum z)
  | JBool b => Ok (KNum (if b then 1 else 0))
  | JNull => Raise ValueError
  | JArr _ | JObj _ => Raise TypeError
  end.

Section Graph.
Variable vec : Type.

Inductive attr_value : Type :=
| AJson (v : json)
| AVec (x : vec).

Definition attrs := list (string * attr_value).

Record node : Type := mkNode {
  node_attr : attrs;
  node_succ : list (key * attrs)
}.

Definition DiGraph := list (key * node).

Definition empty : DiGraph := [].

(** [d.update(kw)] *)
Definition update (d kw : attrs) : attrs :=
  fold_left (fun acc kv => Dict.set string_dec acc (fst kv) (snd kv)) kw d.

Definition node_keys (G : DiGraph) : list key := Dict.keys G.

Definition has_node (G : DiGraph) (k : key) : bool := Dict.mem key_dec G k.

(** [list(G.nodes(data=True))] *)
Definition nodes_data (G : DiGraph) : list (key * attrs) :=
  map (fun kn => (fst kn, node_attr (snd kn))) G.

(** [G.nodes[k]] *)
Definition node_attrs (G : DiGraph) (k : key) : option attrs :=
  option_map node_attr (Dict.get key_dec G k).

(** [G.edges[u, v]] *)
Definition edge_attrs (G : DiGraph) (u v : key) : option attrs :=
  match Dict.get key_dec G u with
  | Some e => Dict.get key_dec (node_succ e) v
  | None => None
  end.

(** [list(G.edges(data=True))] *)
Definition edges_data (G : DiGraph) : list (key * key * attrs) :=
  flat_map (fun kn => map (fun va => (fst kn, fst va, snd va))
                          (node_succ (snd kn))) G.

(** The part of [add_edge] that creates a missing endpoint, with no
    attributes. *)
Definition ensure_node (G : DiGraph) (k : key) : DiGraph :=
  if Dict.mem key_dec G k then G
  else Dict.set key_dec G k (mkNode [] []).

(** [G.add_node(n, **kw)] *)
Definition add_node (G : DiGraph) (n : json) (kw : attrs) : result DiGraph :=
  k <- node_key n ;;
  match Dict.get key_dec G k with
  | None => Ok (Dict.set key_dec G k (mkNode (update [] kw) []))
  | Some e =>
      Ok (Dict.set key_dec G k (mkNode (update (node_attr e) kw) (node_succ e)))
  end.

(** [G.add_edge(u, v, **kw)] *)
Definition add_edge (G : DiGraph) (u v : json) (kw : attrs) : result DiGraph :=
  ku <- node_key u ;;
  let G1 := ensure_node G ku in
  kv <- node_key v ;;
  let G2 := ensure_node G1 kv in
  match Dict.get key_dec G2 ku with
  | Some e =>
      let datadict :=
        match Dict.get key_dec (node_succ e) kv with
        | Some d => d
        | None => []
        end in
      Ok (Dict.set key_dec G2 ku
            (mkNode (node_attr e)
                    (Dict.set key_dec (node_succ e) kv (update datadict kw))))
  | None => Raise KeyError
  end.

(** [G.nodes[k][a] = x] *)
Definition set_node_attr (G : DiGraph) (k : key) (a : string) (x : attr_value)
  : result DiGraph :=
  match Dict.get key_dec G k with
  | Some e =>
      Ok (Dict.set key_dec G k
            (mkNode (Dict.set string_dec (node_attr e) a x) (node_succ e)))
  | None => Raise KeyError
  end.
End Graph.

Arguments AJson {vec} v.
Arguments AVec {vec} x.
Arguments mkNode {vec} _ _.
Arguments node_attr {vec} _.
Arguments node_succ {vec} _.
Arguments empty {vec}.
Arguments update {vec} d kw.
Arguments node_keys {vec} G.
Arguments has_node {vec} G k.
Arguments nodes_data {vec} G.
Arguments node_attrs {vec} G k.
Arguments edge_attrs {vec} G u v.
Arguments edges_data {vec} G.
Arguments ensure_node {vec} G k.
Arguments add_node {vec} G n kw.
Arguments add_edge {vec} G u v kw.
Arguments set_node_attr {vec} G k a x.

End Nx.
Export Nx.

(** ** [mitrejson.py] *)

Module MitreJson.

Section Builder.
Variable vec : Type.

Definition node_types : list string :=
  ["attack-pattern"; "malware"; "tool"; "relationship"].

(** [obj.get("id", obj.get("external_id", "unknown"))] *)
Definition node_id (obj : json) : result json :=
  ext <- get_or obj "external_id" (JStr "unknown") ;;
  get_or obj "id" ext.

(** [obj.get("name", obj.get("id", "Unnamed"))] *)
Definition node_name (obj : json) : result json :=
  dflt <- get_or obj "id" (JStr "Unnamed") ;;
  get_or obj "name" dflt.

(** Body of the inner loop of [build_knowledge_graph], lines 39-50. *)
Definition add_object (G : DiGraph vec) (obj : json) : result (DiGraph vec) :=
  ty <- get_or obj "type" JNull ;;
  if in_strs ty node_types then
    nid <- node_id obj ;;
    nname <- node_name obj ;;
    ty' <- getitem obj "type" ;;
    G1 <- add_node G nid [("label", AJson nname); ("type", AJson ty')] ;;
    ty2 <- get_or obj "type" JNull ;;
    if eq_str ty2 "relationship" then
      source_ref <- get_or obj "source_ref" JNull ;;
      target_ref <- get_or obj "target_ref" JNull ;;
      rel_type <- get_or obj "relationship_type" (JStr "related-to") ;;
      if truthy source_ref && truthy target_ref then
        add_edge G1 source_ref target_ref [("relationship", AJson rel_type)]
      else Ok G1
    else Ok G1
  else Ok G.

Fixpoint add_objects (G : DiGraph vec) (objs : list json)
  : result (DiGraph vec) :=
  match objs with
  | [] => Ok G
  | obj :: rest => G' <- add_object G obj ;; add_objects G' rest
  end.

(** Body of the outer loop, lines 37-50. *)
Definition add_entry (G : DiGraph vec) (entry : json) : result (DiGraph vec) :=
  has <- contains entry "objects" ;;
  if has then
    objs <- getitem entry "objects" ;;
    l <- iter objs ;;
    add_objects G l
  else Ok G.

Fixpoint add_entries (G : DiGraph vec) (data : list json)
  : result (DiGraph vec) :=
  match data with
  | [] => Ok G
  | entry :: rest => G' <- add_entry G entry ;; add_entries G' rest
  end.

Definition build_knowledge_graph (data : list json) : result (DiGraph vec) :=
  add_entries empty data.
End Builder.

Arguments add_object {vec} G obj.
Arguments add_objects {vec} G objs.
Arguments add_entry {vec} G entry.
Arguments add_entries {vec} G data.
Arguments build_knowledge_graph {vec} data.

(** The concrete scenario of the specification. *)
Definition scenario : list json :=
  [JObj [("objects", JArr
    [JObj [("type", JStr "attack-pattern"); ("id", JStr "T1");
           ("name", JStr "Phishing")];
     JObj [("type", JStr "attack-pattern"); ("id", JStr "T2");
           ("name", JStr "Exploitation")];
     JObj [("type", JStr "relationship"); ("source_ref", JStr "T1");
           ("target_ref", JStr "T2"); ("relationship_type", JStr "uses")]])]].

(** *** Corpus loader *)

Section Loader.
(** [os.path.isdir], [os.listdir], [open(file, "r", encoding="utf-8")]
    (the handle stands for the file's content) and [json.load]. *)
Variable isdir : string -> bool.
Variable listdir : string -> result (list string).
Variable open_read : string -> result string.
Variable json_load : string -> result json.

(** [os.path.join(a, b)] *)
Definition path_join (a b : string) : string :=
  if prefix "/" b then b
  else if String.eqb a EmptyString || endswith a "/" then (a ++ b)%string
  else (a ++ "/" ++ b)%string.

(** Lines 14-20: the candidate files, in discovery order. *)
Definition json_files (path : string) : result (list string) :=
  if isdir path then
    entries <- listdir path ;;
    Ok (map (path_join path) (filter (fun file => endswith file ".json") entries))
  else if endswith path ".json" then Ok [path]
  else Ok [].

Definition skip_message (file : string) : string :=
  ("Skipping invalid JSON file: " ++ file)%string.

(** Lines 23-29; [out] is what has been printed so far.  Only
    [json.JSONDecodeError] is caught, and [open] is outside the [try]. *)
Fixpoint load_loop (files : list string) (data : list json) (out : list string)
  : result (list json) * list string :=
  match files with
  | [] => (Ok data, out)
  | file :: rest =>
      match open_read file with
      | Raise e => (Raise e, out)
      | Ok f =>
          match json_load f with
          | Ok content => load_loop rest (data ++ [content]) out
          | Raise JSONDecodeError =>
              load_loop rest data (out ++ [skip_message file])
          | Raise e => (Raise e, out)
          end
      end
  end.

Definition load_json_files (path : string) (out : list string)
  : result (list json) * list string :=
  match json_files path with
  | Raise e => (Raise e, out)
  | Ok files => load_loop files [] out
  end.
End Loader.

(** *** Embedding indexer *)

Section Indexer.
Variable vec : Type.
(** [model.encode(texts, convert_to_numpy=True)], as the list of the rows
    of the array it returns, and the row operation of
    [faiss.normalize_L2]. *)
Variable encode : list (attr_value vec) -> result (list vec).
Variable normalize_L2 : vec -> vec.

(** [faiss.normalize_L2(embeddings)].  The array the encoder builds from
    no row has shape (0,), and the call, which reads [shape[1]], raises
    [IndexError]; on an array with rows every row is normalized in
    place. *)
Definition faiss_normalize_L2 (embeddings : list vec) : result (list vec) :=
  match embeddings with
  | [] => Raise IndexError
  | _ :: _ => Ok (map normalize_L2 embeddings)
  end.

(** [node[1].get('label', 'Unknown')] *)
Definition label_text (a : attrs vec) : attr_value vec :=
  match Dict.get string_dec a "label" with
  | Some v => v
  | None => AJson (JStr "Unknown")
  end.

(** Lines 65-66, from position [i] on. *)
Fixpoint store_embeddings (G : DiGraph vec) (i : nat)
  (node_list : list (key * attrs vec)) (embeddings : list vec)
  : result (DiGraph vec) :=
  match node_list with
  | [] => Ok G
  | (nid, _) :: rest =>
      match nth_error embeddings i with
      | None => Raise IndexError
      | Some e =>
          G' <- set_node_attr G nid "embedding" (AVec e) ;;
          store_embeddings G' (S i) rest embeddings
      end
  end.

(** The module-level [index] is the list of the vectors added so far;
    the call returns it together with the graph it has mutated. *)
Definition generate_embeddings_and_index (index : list vec) (G : DiGraph vec)
  : result (list vec * DiGraph vec) :=
  let node_list := nodes_data G in
  let texts := map (fun n => label_text (snd n)) node_list in
  embeddings <- encode texts ;;
  embeddings <- faiss_normalize_L2 embeddings ;;
  let index := index ++ embeddings in
  G' <- store_embeddings G 0 node_list embeddings ;;
  Ok (index, G').
End Indexer.

Arguments label_text {vec} a.
Arguments store_embeddings {vec} G i node_list embeddings.
Arguments faiss_normalize_L2 {vec} normalize_L2 embeddings.
Arguments generate_embeddings_and_index {vec} encode normalize_L2 index G.

End MitreJson.

(** ** [mitre_processor2.py] *)

Module MitreProcessor2.

Definition PLATFORM_MAPPING : list (string * list string) :=
  [("containers", ["container"; "containers"; "docker"; "podman"; "kubernetes"])].

Section Filter.
(** [str.lower] *)
Variable lower : string -> string.

(** [platform.lower() if platform else the empty string] *)
Definition normalize_platform (platform : json) : result string :=
  if truthy platform then
    match platform with
    | JStr s => Ok (lower s)
    | _ => Raise AttributeError
    end
  else Ok EmptyString.

(** [PLATFORM_MAPPING.get(target_platform, [target_platform])] *)
Definition get_expanded_platforms (target_platform : string) : list string :=
  match Dict.get string_dec PLATFORM_MAPPING target_platform with
  | Some l => l
  | None => [target_platform]
  end.

(** Lines 39-42: the inner loop, [true] standing for [return True]. *)
Fixpoint match_object_platforms (expanded_platform : string)
  (object_platforms : list json) : result bool :=
  match object_platforms with
  | [] => Ok false
  | object_platform :: rest =>
      a <- normalize_platform object_platform ;;
      b <- normalize_platform (JStr expanded_platform) ;;
      if String.eqb a b then Ok true
      else match_object_platforms expanded_platform rest
  end.

(** Lines 38-42: the outer loop. *)
Fixpoint match_expanded (expanded_platforms : list string)
  (object_platforms : json) : result bool :=
  match expanded_platforms with
  | [] => Ok false
  | expanded_platform :: rest =>
      l <- iter object_platforms ;;
      hit <- match_object_platforms expanded_platform l ;;
      if hit then Ok true else match_expanded rest object_platforms
  end.

Definition platform_check (mitre_object : json) (target_platform : string)
  : result bool :=
  let expanded_platforms := get_expanded_platforms target_platform in
  object_platforms <- get_or mitre_object "x_mitre_platforms" (JArr []) ;;
  if negb (truthy object_platforms) then Ok false
  else match_expanded expanded_platforms object_platforms.

(** Lines 47-51: the list comprehension. *)
Fixpoint filter_objects (objs : list json) (platform : string)
  : result (list json) :=
  match objs with
  | [] => Ok []
  | mitre_object :: rest =>
      ty <- get_or mitre_object "type" JNull ;;
      keep <- (if eq_str ty "attack-pattern"
               then platform_check mitre_object platform
               else Ok false) ;;
      kept <- filter_objects rest platform ;;
      Ok (if keep then mitre_object :: kept else kept)
  end.

(** Messages of level WARNING and ERROR; the DEBUG ones are below the
    configured level. *)
Definition log := list (string * string).

(** Lines 47-65, on the decoded document. *)
Definition filter_document (mitre_data : json) (platform : string)
  : result (option json * log) :=
  objs <- get_or mitre_data "objects" (JArr []) ;;
  l <- iter objs ;;
  filtered_objects <- filter_objects l platform ;;
  match filtered_objects with
  | [] =>
      Ok (None, [("WARNING",
                  ("No relevant techniques found for platform " ++ platform)%string)])
  | _ =>
      ty <- get_or mitre_data "type" (JStr "Unknown") ;;
      id <- get_or mitre_data "id" (JStr "Unknown") ;;
      sv <- get_or mitre_data "spec_version" (JStr "Unknown") ;;
      Ok (Some (JObj [("objects", JArr filtered_objects); ("type", ty);
                      ("id", id); ("spec_version", sv)]), [])
  end.

Section Processor.
Variable open_read : string -> result string.
Variable json_load : string -> result json.

Definition process_mitre (json_file_path platform : string)
  : result (option json * log) :=
  match (f <- open_read json_file_path ;; json_load f) with
  | Raise FileNotFoundError =>
      Ok (None, [("ERROR", ("File not found: " ++ json_file_path)%string)])
  | Raise JSONDecodeError =>
      Ok (None, [("ERROR", ("Invalid JSON format in: " ++ json_file_path)%string)])
  | Raise e => Raise e
  | Ok mitre_data => filter_document mitre_data platform
  end.
End Processor.
End Filter.

End MitreProcessor2.

(** ** Vocabulary of the statements *)

Module Vocabulary.
Import MitreJson MitreProcessor2.

Definition key_list (v : json) : list key :=
  match node_key v with
  | Ok k => [k]
  | Raise _ => []
  end.

Definition hashable (v : json) : bool :=
  match node_key v with
  | Ok _ => true
  | Raise _ => false
  end.

(** The identity key of [obj] when its type is one of [types]. *)
Definition object_identity (types : list string) (obj : json) : list key :=
  match get_or obj "type" JNull with
  | Ok ty =>
      if in_strs ty types then
        match node_id obj with
        | Ok nid => key_list nid
        | Raise _ => []
        end
      else []
  | Raise _ => []
  end.

(** Whether [obj] is a relationship carrying two truthy endpoints. *)
Definition emits_edge (obj : json) : bool :=
  match get_or obj "type" JNull, get_or obj "source_ref" JNull,
        get_or obj "target_ref" JNull with
  | Ok ty, Ok s, Ok t => eq_str ty "relationship" && (truthy s && truthy t)
  | _, _, _ => false
  end.

Definition endpoint_keys (obj : json) : list key :=
  if emits_edge obj then
    match get_or obj "source_ref" JNull, get_or obj "target_ref" JNull with
    | Ok s, Ok t => key_list s ++ key_list t
    | _, _ => []
    end
  else [].

(** The keys [add_object] touches. *)
Definition object_keys (obj : json) : list key :=
  object_identity node_types obj ++ endpoint_keys obj.

(** The objects the builder visits in an entry, and in a document set. *)
Definition entry_objects (entry : json) : list json :=
  match contains entry "objects" with
  | Ok true =>
      match (objs <- getitem entry "objects" ;; iter objs) with
      | Ok l => l
      | Raise _ => []
      end
  | _ => []
  end.

Definition all_objects (data : list json) : list json :=
  flat_map entry_objects data.

Definition data_keys (data : list json) : list key :=
  flat_map object_keys (all_objects data).

(** The identity keys of the attack-pattern, malware and tool objects. *)
Definition entity_keys (data : list json) : list key :=
  flat_map (object_identity ["attack-pattern"; "malware"; "tool"])
           (all_objects data).

(** Documents shaped as the scripts expect them: every entry a dict whose
    ["objects"], when present, is a list of dicts with hashable keys. *)
Definition well_formed_object (obj : json) : bool :=
  match obj with
  | JObj _ =>
      match get_or obj "type" JNull with
      | Ok ty =>
          if in_strs ty node_types then
            match node_id obj with
            | Ok nid => hashable nid
            | Raise _ => false
            end
            && (if emits_edge obj then
                  match get_or obj "source_ref" JNull,
                        get_or obj "target_ref" JNull with
                  | Ok s, Ok t => hashable s && hashable t
                  | _, _ => false
                  end
                else true)
          else true
      | Raise _ => false
      end
  | _ => false
  end.

Definition well_formed_entry (entry : json) : bool :=
  match entry with
  | JObj m =>
      match field m "objects" with
      | None => true
      | Some (JArr objs) => forallb well_formed_object objs
      | Some _ => false
      end
  | _ => false
  end.

Definition well_formed_data (data : list json) : bool :=
  forallb well_formed_entry data.

(** Every edge joins two nodes of the graph. *)
Definition no_dangling {vec : Type} (G : DiGraph vec) : Prop :=
  forall u v a,
    edge_attrs G u v = Some a -> has_node G u = true /\ has_node G v = true.

(** The fallback chains in the words of the specification. *)
Definition spec_identity (m : list (string * json)) : json :=
  match field m "id" with
  | Some v => v
  | None =>
      match field m "external_id" with
      | Some v => v
      | None => JStr "unknown"
      end
  end.

Definition spec_label (m : list (string * json)) : json :=
  match field m "name" with
  | Some v => v
  | None =>
      match field m "id" with
      | Some v => v
      | None => JStr "Unnamed"
      end
  end.

(** A relationship between two keys that no object introduces. *)
Definition lone_relationship : json :=
  JObj [("type", JStr "relationship"); ("id", JStr "R1");
        ("source_ref", JStr "A"); ("target_ref", JStr "B")].

(** What the loader does with one candidate: the document it decodes to,
    and whether it is skipped with a diagnostic. *)
Section LoaderVocabulary.
Variable open_read : string -> result string.
Variable json_load : string -> result json.

Definition loads_or_skips (file : string) : bool :=
  match open_read file with
  | Ok f =>
      match json_load f with
      | Ok _ | Raise JSONDecodeError => true
      | Raise _ => false
      end
  | Raise _ => false
  end.

Definition undecodable (file : string) : bool :=
  match open_read file with
  | Ok f =>
      match json_load f with
      | Raise JSONDecodeError => true
      | _ => false
      end
  | Raise _ => false
  end.

Definition parsed_documents (files : list string) : list json :=
  flat_map (fun file =>
              match open_read file with
              | Ok f =>
                  match json_load f with
                  | Ok content => [content]
                  | Raise _ => []
                  end
              | Raise _ => []
              end) files.
End LoaderVocabulary.

(** A directory with a valid document, an invalid one and a text file. *)
Definition corpus_isdir (path : string) : bool := String.eqb path "corpus".

Definition corpus_listdir (path : string) : result (list string) :=
  if String.eqb path "corpus" then Ok ["a.json"; "notes.txt"; "b.json"]
  else Raise OSError.

Definition corpus_open (file : string) : result string :=
  if String.eqb file "corpus/a.json" then Ok "{}"
  else if String.eqb file "corpus/b.json" then Ok "{"
  else if String.eqb file "corpus/notes.txt" then Ok "notes"
  else Raise FileNotFoundError.

Definition corpus_json_load (text : string) : result json :=
  if String.eqb text "{}" then Ok (JObj []) else Raise JSONDecodeError.

(** [target_platform] matches one of the platform names [ps], names being
    compared through [lower]. *)
Definition platform_matches (lower : string -> string)
  (target_platform : string) (ps : list string) : bool :=
  existsb (fun e => existsb (fun p => String.eqb (lower p) (lower e)) ps)
          (get_expanded_platforms target_platform).

(** A bundle whose only technique is for Windows. *)
Definition windows_bundle : json :=
  JObj [("type", JStr "bundle"); ("id", JStr "bundle--1");
        ("spec_version", JStr "2.0");
        ("objects", JArr
           [JObj [("type", JStr "attack-pattern"); ("name", JStr "Run Key");
                  ("x_mitre_platforms", JArr [JStr "Windows"])];
            JObj [("type", JStr "malware"); ("name", JStr "Agent");
                  ("x_mitre_platforms", JArr [JStr "Windows"])]])].

(** The objects [process_mitre] iterates over:
    [mitre_data.get("objects", [])]. *)
Definition document_objects (mitre_data : json) : result (list json) :=
  objs <- get_or mitre_data "objects" (JArr []) ;;
  iter objs.

Definition container_names : list string :=
  ["container"; "containers"; "docker"; "podman"; "kubernetes"].

(** A stand-in for the encoder and for the normalization, on integer
    vectors, and the graph of the scenario. *)
Definition toy_vec : Type := list Z.

Definition toy_encode (texts : list (attr_value toy_vec)) : result (list toy_vec) :=
  Ok (map (fun t => match t with
                    | AJson (JStr s) => [Z.of_nat (String.length s); 0%Z]
                    | _ => [0%Z; 0%Z]
                    end) texts).

Definition toy_normalize (v : toy_vec) : toy_vec := map Z.sgn v.

Definition scenario_graph : DiGraph toy_vec :=
  match build_knowledge_graph scenario with
  | Ok G => G
  | Raise _ => empty
  end.

(** [selected lower platform o]: [o] passes the condition of the list
    comprehension of [process_mitre]. *)
Definition selected (lower : string -> string) (platform : string) (o : json)
  : bool :=
  match get_or o "type" JNull with
  | Ok ty =>
      eq_str ty "attack-pattern"
      && match platform_check lower o platform with
         | Ok b => b
         | Raise _ => false
         end
  | Raise _ => false
  end.

(** Bundles shaped as the filter expects them: a dict whose ["objects"],
    when present, is a list of dicts whose ["x_mitre_platforms"], when
    present, is a list of strings. *)
Definition is_string (v : json) : bool :=
  match v with
  | JStr _ => true
  | _ => false
  end.

Definition checkable_object (o : json) : bool :=
  match o with
  | JObj m =>
      match field m "x_mitre_platforms" with
      | None => true
      | Some (JArr l) => forallb is_string l
      | Some _ => false
      end
  | _ => false
  end.

Definition well_formed_bundle (mitre_data : json) : bool :=
  match mitre_data with
  | JObj m =>
      match field m "objects" with
      | None => true
      | Some (JArr objs) => forallb checkable_object objs
      | Some _ => false
      end
  | _ => false
  end.

(** [d.get(k, "Unknown")] on the fields of a dict. *)
Definition field_or_unknown (m : list (string * json)) (k : string) : json :=
  match field m k with
  | Some v => v
  | None => JStr "Unknown"
  end.

End Vocabulary.

(** ** The two entry points *)

Module MitreJsonMain.
Import MitreJson.

Section Main.
Variable isdir : string -> bool.
Variable listdir : string -> result (list string).
Variable open_read : string -> result string.
Variable json_load : string -> result json.
Variable vec : Type.
Variable encode : list (attr_value vec) -> result (list vec).
Variable normalize_L2 : vec -> vec.

Definition success_message : string :=
  "Knowledge graph and FAISS index successfully created!".

(** Lines 70-78 of [mitrejson.py], for the path given in [path]; [index]
    is the module-level index and [out] what has been printed so far. *)
Definition main (path : string) (index : list vec) (out : list string)
  : result (list vec * DiGraph vec) * list string :=
  match load_json_files isdir listdir open_read json_load path out with
  | (Raise e, out1) => (Raise e, out1)
  | (Ok json_data, out1) =>
      match build_knowledge_graph json_data with
      | Raise e => (Raise e, out1)
      | Ok knowledge_graph =>
          match generate_embeddings_and_index encode normalize_L2 index
                  knowledge_graph with
          | Raise e => (Raise e, out1)
          | Ok faiss_index => (Ok faiss_index, out1 ++ [success_message])
          end
      end
  end.
End Main.
End MitreJsonMain.

Module MitreProcessor2Main.
Import MitreJson MitreProcessor2.

(** [os.path.basename]: what follows the last slash. *)
Fixpoint basename_from (acc s : string) : string :=
  match s with
  | EmptyString => acc
  | String c r =>
      if Ascii.eqb c "/" then basename_from EmptyString r
      else basename_from (acc ++ String c EmptyString)%string r
  end.

Definition basename (p : string) : string := basename_from EmptyString p.

(** What a run leaves behind: the files written, the lines printed and the
    log records of level INFO and above. *)
Record effects : Type := mkEffects {
  written : list (string * json);
  printed : list string;
  logged : log
}.

Section Main.
(** [os.makedirs(output_dir, exist_ok=True)]; reading as in
    [process_mitre]; [open(path, "w")] followed by [json.dump]; and
    [str(e)] for a caught exception.  [lower] is [str.lower]. *)
Variable lower : string -> string.
Variable makedirs : string -> result unit.
Variable open_read : string -> result string.
Variable json_load : string -> result json.
Variable write_json : string -> json -> result unit.
Variable str_exn : exn -> string.

(** The [except Exception] clause, lines 94-96. *)
Definition failed (e : exn) (lg : log) : effects :=
  mkEffects []
    [("Error processing MITRE ATT&CK file: " ++ str_exn e)%string]
    (lg ++ [("ERROR",
             ("Failed to process MITRE ATT&CK file: " ++ str_exn e)%string)]).

(** Lines 75-96 of [main], on the parsed arguments. *)
Definition main (json_file_path platform output_dir : string) : result effects :=
  _ <- makedirs output_dir ;;
  let file_name := basename json_file_path in
  let output_file_path := path_join output_dir file_name in
  let start :=
    ("INFO", ("Starting MITRE ATT&CK processing for " ++ json_file_path)%string) in
  match process_mitre lower open_read json_load json_file_path platform with
  | Raise e => Ok (failed e [start])
  | Ok (processed_data, lg) =>
      match processed_data with
      | Some d =>
          if truthy d then
            let found :=
              ("INFO",
               ("Found relevant techniques for platform " ++ platform)%string) in
            match write_json output_file_path d with
            | Ok _ =>
                Ok (mkEffects [(output_file_path, d)]
                      [("Processed data saved to: " ++ output_file_path)%string]
                      (start :: lg ++ [found]))
            | Raise e => Ok (failed e (start :: lg ++ [found]))
            end
          else
            Ok (mkEffects [] ["No relevant techniques found."]
                  (start :: lg ++
                   [("WARNING",
                     ("No relevant techniques found in " ++ json_file_path
                      ++ " for platform " ++ platform)%string)]))
      | None =>
          Ok (mkEffects [] ["No relevant techniques found."]
                (start :: lg ++
                 [("WARNING",
                   ("No relevant techniques found in " ++ json_file_path
                    ++ " for platform " ++ platform)%string)]))
      end
  end.
End Main.
End MitreProcessor2Main.

(** ** The builder as the interpreter runs it

    [build_knowledge_graph] allocates a graph object and mutates it through
    method calls.  Here the graph objects live in a store, beside the
    module-level index and the standard output, and every method call of
    lines 32-52 is a step on that store. *)

Module InWorld.
Import MitreJson.

Section World.
Variable vec : Type.

Record world : Type := mkWorld {
  graphs : list (DiGraph vec);
  faiss_index : list vec;
  stdout : list string
}.

Definition prog (A : Type) : Type := world -> result A * world.

Definition ret {A : Type} (a : A) : prog A := fun w => (Ok a, w).

Definition bindp {A B : Type} (m : prog A) (k : A -> prog B) : prog B :=
  fun w =>
    match m w with
    | (Ok a, w1) => k a w1
    | (Raise e, w1) => (Raise e, w1)
    end.

(** An expression that reads its operands only. *)
Definition lift {A : Type} (r : result A) : prog A := fun w => (r, w).

Fixpoint replace_nth {A : Type} (l : list A) (i : nat) (x : A) : list A :=
  match l, i with
  | [], _ => []
  | _ :: t, O => x :: t
  | h :: t, S j => h :: replace_nth t j x
  end.

Definition put (r : nat) (G : DiGraph vec) (w : world) : world :=
  mkWorld (replace_nth (graphs w) r G) (faiss_index w) (stdout w).

(** [nx.DiGraph()]: a new object at a new address. *)
Definition new_DiGraph : prog nat :=
  fun w =>
    (Ok (length (graphs w)),
     mkWorld (graphs w ++ [empty]) (faiss_index w) (stdout w)).

(** A method call on the graph at address [r]; an exception leaves the
    call before the object is rebound.  (An address always names an
    object; the last branch is never taken.) *)
Definition method (r : nat) (f : DiGraph vec -> result (DiGraph vec))
  : prog unit :=
  fun w =>
    match nth_error (graphs w) r with
    | Some G =>
        match f G with
        | Ok G' => (Ok tt, put r G' w)
        | Raise e => (Raise e, w)
        end
    | None => (Raise KeyError, w)
    end.

Local Notation "x <~ m ;; k" := (bindp m (fun x => k))
  (at level 61, m at next level, right associativity).

(** Lines 39-50 on the graph at address [G]. *)
Definition add_object_at (G : nat) (obj : json) : prog unit :=
  ty <~ lift (get_or obj "type" JNull) ;;
  if in_strs ty node_types then
    nid <~ lift (node_id obj) ;;
    nname <~ lift (node_name obj) ;;
    ty' <~ lift (getitem obj "type") ;;
    _ <~ method G (fun g =>
           add_node g nid [("label", AJson nname); ("type", AJson ty')]) ;;
    ty2 <~ lift (get_or obj "type" JNull) ;;
    if eq_str ty2 "relationship" then
      source_ref <~ lift (get_or obj "source_ref" JNull) ;;
      target_ref <~ lift (get_or obj "target_ref" JNull) ;;
      rel_type <~ lift (get_or obj "relationship_type" (JStr "related-to")) ;;
      if truthy source_ref && truthy target_ref then
        method G (fun g =>
          add_edge g source_ref target_ref [("relationship", AJson rel_type)])
      else ret tt
    else ret tt
  else ret tt.

Fixpoint add_objects_at (G : nat) (objs : list json) : prog unit :=
  match objs with
  | [] => ret tt
  | obj :: rest => _ <~ add_object_at G obj ;; add_objects_at G rest
  end.

(** Lines 37-50. *)
Definition add_entry_at (G : nat) (entry : json) : prog unit :=
  has <~ lift (contains entry "objects") ;;
  if has then
    objs <~ lift (getitem entry "objects") ;;
    l <~ lift (iter objs) ;;
    add_objects_at G l
  else ret tt.

Fixpoint add_entries_at (G : nat) (data : list json) : prog unit :=
  match data with
  | [] => ret tt
  | entry :: rest => _ <~ add_entry_at G entry ;; add_entries_at G rest
  end.

(** Lines 32-52: the address of the graph is what the call returns. *)
Definition run_build_knowledge_graph (data : list json) : prog nat :=
  G <~ new_DiGraph ;;
  _ <~ add_entries_at G data ;;
  ret G.
End World.

Arguments mkWorld {vec} _ _ _.
Arguments graphs {vec} _.
Arguments faiss_index {vec} _.
Arguments stdout {vec} _.
Arguments ret {vec A} a.
Arguments bindp {vec A B} m k.
Arguments lift {vec A} r.
Arguments put {vec} r G w.
Arguments new_DiGraph {vec}.
Arguments method {vec} r f.
Arguments add_object_at {vec} G obj.
Arguments add_objects_at {vec} G objs.
Arguments add_entry_at {vec} G entry.
Arguments add_entries_at {vec} G data.
Arguments run_build_knowledge_graph {vec} data.

(** What a run on the graph at [r] does to the store [w], against the
    builder on graphs started on [G]: the outcome is the same, and the
    store changes at [r] only. *)
Definition tracks {vec : Type} (run : result unit * world vec)
  (pure : result (DiGraph vec)) (r : nat) (w : world vec) : Prop :=
  exists P,
    snd run = put r P w
    /\ fst run = match pure with
                 | Ok _ => Ok tt
                 | Raise e => Raise e
                 end
    /\ (forall G', pure = Ok G' -> P = G').

End InWorld.

(** ** Further vocabulary *)

Module Notions.
Import MitreJson MitreProcessor2 Vocabulary.

(** The keys of a sequence in the order of their first occurrence. *)
Definition push_key (seen : list key) (k : key) : list key :=
  if in_dec key_dec k seen then seen else seen ++ [k].

Definition first_occurrences (l : list key) : list key :=
  fold_left push_key l [].

(** The label a relationship object gives its edge. *)
Definition spec_relationship (m : list (string * json)) : json :=
  match field m "relationship_type" with
  | Some v => v
  | None => JStr "related-to"
  end.

(** The graph of a run, the empty graph when it raised. *)
Definition graph_of {vec : Type} (r : result (DiGraph vec)) : DiGraph vec :=
  match r with
  | Ok G => G
  | Raise _ => empty
  end.

Definition lone_fields : list (string * json) :=
  [("type", JStr "relationship"); ("id", JStr "R1");
   ("source_ref", JStr "A"); ("target_ref", JStr "B")].

Definition slash_free (s : string) : bool :=
  negb (existsb (fun c => Ascii.eqb c "/") (list_ascii_of_string s)).

(** A corpus whose valid document is the scenario. *)
Definition scenario_open (file : string) : result string :=
  if String.eqb file "corpus/a.json" then Ok "scenario"
  else if String.eqb file "corpus/b.json" then Ok "{"
  else Raise FileNotFoundError.

Definition scenario_json_load (text : string) : result json :=
  match scenario with
  | doc :: _ =>
      if String.eqb text "scenario" then Ok doc else Raise JSONDecodeError
  | [] => Raise JSONDecodeError
  end.

(** The texts the indexer encodes for a graph. *)
Definition texts_of {vec : Type} (G : DiGraph vec) : list (attr_value vec) :=
  map (fun n => label_text (snd n)) (nodes_data G).

(** An encoder that answers every batch with one vector per text. *)
Definition one_vector_per_text {vec : Type}
  (encode : list (attr_value vec) -> result (list vec)) : Prop :=
  forall texts, exists embs, encode texts = Ok embs /\ length embs = length texts.

End Notions.

(** * Facts about the model *)

(** ** Ordered dictionaries *)

Lemma NoDup_snoc {A : Type} (l : list A) (x : A) :
  NoDup l -> ~ In x l -> NoDup (l ++ [x]).
Proof.
  induction 1 as [|y l Hy Hl IH]; simpl; intros Hx.
  - constructor; [intros [] | constructor].
  - constructor.
    + rewrite in_app_iff. simpl. intuition.
    + apply IH. intuition.
Qed.

Section DictFacts.
Context {K V : Type}.
Variable K_dec : forall a b : K, {a = b} + {a <> b}.
Local Abbreviation dict := (list (K * V)).
Local Abbreviation get := (Dict.get K_dec).
Local Abbreviation set := (Dict.set K_dec).
Local Abbreviation mem := (Dict.mem K_dec).
Local Abbreviation keys := (@Dict.keys K V).

Lemma get_set_same (d : dict) k v : get (set d k v) k = Some v.
Proof.
  induction d as [|[k' v'] r IH]; simpl.
  - destruct (K_dec k k); congruence.
  - destruct (K_dec k' k) as [e|n]; simpl.
    + destruct (K_dec k' k); congruence.
    + destruct (K_dec k' k); [contradiction | exact IH].
Qed.

Lemma get_set_other (d : dict) k v k0 :
  k <> k0 -> get (set d k v) k0 = get d k0.
Proof.
  intros Hne. induction d as [|[k' v'] r IH]; simpl.
  - destruct (K_dec k k0); [contradiction | reflexivity].
  - destruct (K_dec k' k) as [e|n]; simpl.
    + subst k'. destruct (K_dec k k0); [contradiction | reflexivity].
    + destruct (K_dec k' k0); [reflexivity | exact IH].
Qed.

Lemma get_None_iff (d : dict) k : get d k = None <-> ~ In k (keys d).
Proof.
  induction d as [|[k' v'] r IH]; simpl.
  - tauto.
  - destruct (K_dec k' k) as [e|n].
    + split; [discriminate | intros H; exfalso; apply H; now left].
    + rewrite IH. tauto.
Qed.

Lemma mem_true_iff (d : dict) k : mem d k = true <-> In k (keys d).
Proof.
  unfold Dict.mem. destruct (get d k) eqn:E.
  - split; [intros _ | reflexivity].
    destruct (in_dec K_dec k (keys d)) as [i|n]; [exact i|].
    apply get_None_iff in n. congruence.
  - split; [discriminate|]. intros Hin.
    apply get_None_iff in E. contradiction.
Qed.

Lemma mem_false_iff (d : dict) k : mem d k = false <-> ~ In k (keys d).
Proof.
  rewrite <- mem_true_iff. destruct (mem d k); split; congruence.
Qed.

Lemma keys_set (d : dict) k v :
  keys (set d k v) = if mem d k then keys d else keys d ++ [k].
Proof.
  unfold Dict.mem, Dict.keys. induction d as [|[k' v'] r IH]; simpl.
  - reflexivity.
  - destruct (K_dec k' k) as [e|n]; simpl.
    + reflexivity.
    + rewrite IH. destruct (get r k); reflexivity.
Qed.

Lemma in_keys_set (d : dict) k v k0 :
  In k0 (keys (set d k v)) <-> In k0 (keys d) \/ k0 = k.
Proof.
  rewrite keys_set. destruct (mem d k) eqn:E.
  - apply mem_true_iff in E. split; [tauto|].
    intros [H|H]; [exact H | now subst].
  - rewrite in_app_iff. simpl. intuition.
Qed.

Lemma NoDup_keys_set (d : dict) k v :
  NoDup (keys d) -> NoDup (keys (set d k v)).
Proof.
  intros Hnd. rewrite keys_set. destruct (mem d k) eqn:E; [exact Hnd|].
  apply mem_false_iff in E. now apply NoDup_snoc.
Qed.

Lemma get_set (d : dict) k v k0 :
  get (set d k v) k0 = if K_dec k k0 then Some v else get d k0.
Proof.
  destruct (K_dec k k0) as [e|n].
  - subst. apply get_set_same.
  - now apply get_set_other.
Qed.
End DictFacts.

(** ** The graph operations *)

Section NxFacts.
Variable vec : Type.
Implicit Types (G : DiGraph vec) (k : key).

Lemma has_node_iff G k : has_node G k = true <-> In k (node_keys G).
Proof. apply mem_true_iff. Qed.

Lemma in_keys_ensure_node G n k :
  In k (node_keys (ensure_node G n)) <-> In k (node_keys G) \/ k = n.
Proof.
  unfold ensure_node, node_keys. destruct (Dict.mem key_dec G n) eqn:E.
  - apply mem_true_iff in E. split; [tauto|]. intros [H|H]; [exact H|now subst].
  - apply in_keys_set.
Qed.

Lemma NoDup_ensure_node G n :
  NoDup (node_keys G) -> NoDup (node_keys (ensure_node G n)).
Proof.
  unfold ensure_node, node_keys. destruct (Dict.mem key_dec G n); [easy|].
  apply NoDup_keys_set.
Qed.

Lemma get_ensure_node_new G n :
  has_node G n = false ->
  Dict.get key_dec (ensure_node G n) n = Some (mkNode [] []).
Proof.
  unfold ensure_node, has_node. intros ->. apply get_set_same.
Qed.

Lemma get_ensure_node_other G n k :
  k <> n -> Dict.get key_dec (ensure_node G n) k = Dict.get key_dec G k.
Proof.
  intros Hne. unfold ensure_node. destruct (Dict.mem key_dec G n); [easy|].
  apply get_set_other. congruence.
Qed.

Lemma get_ensure_node_old G n k e :
  Dict.get key_dec G k = Some e -> Dict.get key_dec (ensure_node G n) k = Some e.
Proof.
  intros H. unfold ensure_node. destruct (Dict.mem key_dec G n) eqn:E; [easy|].
  rewrite get_set_other; [exact H|]. intros ->.
  unfold Dict.mem in E. rewrite H in E. discriminate.
Qed.

Lemma add_node_keys G n kw G' :
  add_node G n kw = Ok G' ->
  exists k, node_key n = Ok k /\
    (forall k0, In k0 (node_keys G') <-> In k0 (node_keys G) \/ k0 = k) /\
    (NoDup (node_keys G) -> NoDup (node_keys G')).
Proof.
  unfold add_node, bind. destruct (node_key n) as [k|]; [|discriminate].
  intros H. exists k. split; [reflexivity|].
  destruct (Dict.get key_dec G k); inversion H; subst; clear H;
    (split; [intros k0; apply in_keys_set | apply NoDup_keys_set]).
Qed.

Lemma add_edge_keys G u v kw G' :
  add_edge G u v kw = Ok G' ->
  exists ku kv, node_key u = Ok ku /\ node_key v = Ok kv /\
    (forall k0, In k0 (node_keys G') <->
                In k0 (node_keys G) \/ k0 = ku \/ k0 = kv) /\
    (NoDup (node_keys G) -> NoDup (node_keys G')).
Proof.
  unfold add_edge, bind. destruct (node_key u) as [ku|]; [|discriminate].
  destruct (node_key v) as [kv|]; [|discriminate].
  destruct (Dict.get key_dec (ensure_node (ensure_node G ku) kv) ku) eqn:E;
    [|discriminate].
  intros H. inversion H; subst; clear H. exists ku, kv.
  split; [reflexivity|]. split; [reflexivity|]. split.
  - intros k0. unfold node_keys at 1. rewrite in_keys_set.
    fold (node_keys (ensure_node (ensure_node G ku) kv)).
    rewrite !in_keys_ensure_node. tauto.
  - intros Hnd. apply NoDup_keys_set.
    apply NoDup_ensure_node, NoDup_ensure_node, Hnd.
Qed.
End NxFacts.

(** ** The graph builder *)

Section BuilderFacts.
Import MitreJson Vocabulary.
Variable vec : Type.
Implicit Types (G : DiGraph vec) (k : key).

Lemma relationship_is_node_type (ty : json) :
  in_strs ty node_types = false -> eq_str ty "relationship" = false.
Proof.
  unfold in_strs, node_types. simpl.
  destruct (eq_str ty "relationship"); [|reflexivity].
  rewrite !orb_true_r. discriminate.
Qed.

Lemma add_object_keys G obj G' :
  add_object G obj = Ok G' ->
  (forall k, In k (node_keys G') <-> In k (node_keys G) \/ In k (object_keys obj))
  /\ (NoDup (node_keys G) -> NoDup (node_keys G')).
Proof.
  destruct obj as [| | | | |m]; try discriminate.
  unfold add_object, object_keys, object_identity, endpoint_keys, emits_edge.
  unfold node_id, node_name, get_or, getitem, bind.
  destruct (field m "type") as [ty|] eqn:Ety.
  2:{ simpl. intros H. inversion H; subst. split; [intros k; simpl; tauto | tauto]. }
  destruct (in_strs ty node_types) eqn:Ein.
  2:{ intros H. inversion H; subst. rewrite (relationship_is_node_type _ Ein).
      split; [intros k; simpl; tauto | tauto]. }
  set (nid := match field m "id" with Some v => v | None =>
                match field m "external_id" with Some v => v
                | None => JStr "unknown" end end).
  destruct (add_node G nid _) as [G1|] eqn:E1; [|discriminate].
  apply add_node_keys in E1. destruct E1 as (k1 & Hk1 & Hin1 & Hnd1).
  unfold key_list. rewrite Hk1.
  set (s := match field m "source_ref" with Some v => v | None => JNull end).
  set (t := match field m "target_ref" with Some v => v | None => JNull end).
  destruct (eq_str ty "relationship") eqn:Erel; cbn [andb].
  - destruct (truthy s && truthy t) eqn:Etr.
    + intros H. apply add_edge_keys in H.
      destruct H as (ku & kv & Hu & Hv & Hin & Hnd).
      rewrite Hu, Hv. split.
      * intros k. rewrite Hin, Hin1. simpl. intuition.
      * auto.
    + intros H. inversion H; subst. split; [|exact Hnd1].
      intros k. rewrite Hin1. simpl. intuition.
  - intros H. inversion H; subst. split; [|exact Hnd1].
    intros k. rewrite Hin1. simpl. intuition.
Qed.

Lemma add_objects_keys objs : forall G G',
  add_objects G objs = Ok G' ->
  (forall k, In k (node_keys G') <->
             In k (node_keys G) \/ In k (flat_map object_keys objs))
  /\ (NoDup (node_keys G) -> NoDup (node_keys G')).
Proof.
  induction objs as [|obj rest IH]; simpl; intros G G' H.
  - inversion H; subst. split; [intros k; tauto | tauto].
  - unfold bind in H. destruct (add_object G obj) as [G1|] eqn:E1; [|discriminate].
    apply add_object_keys in E1. destruct E1 as [Hin1 Hnd1].
    apply IH in H. destruct H as [Hin Hnd]. split; [|tauto].
    intros k. rewrite Hin, Hin1, in_app_iff. tauto.
Qed.

Lemma add_entry_keys G entry G' :
  add_entry G entry = Ok G' ->
  (forall k, In k (node_keys G') <->
             In k (node_keys G) \/ In k (flat_map object_keys (entry_objects entry)))
  /\ (NoDup (node_keys G) -> NoDup (node_keys G')).
Proof.
  unfold add_entry, entry_objects, bind.
  destruct (contains entry "objects") as [[|]|]; try discriminate.
  - destruct (getitem entry "objects") as [objs|]; [|discriminate].
    destruct (iter objs) as [l|]; [|discriminate].
    apply add_objects_keys.
  - intros H. inversion H; subst. split; [intros k; simpl; tauto | tauto].
Qed.

Lemma add_entries_keys data : forall G G',
  add_entries G data = Ok G' ->
  (forall k, In k (node_keys G') <-> In k (node_keys G) \/ In k (data_keys data))
  /\ (NoDup (node_keys G) -> NoDup (node_keys G')).
Proof.
  unfold data_keys, all_objects.
  induction data as [|entry rest IH]; simpl; intros G G' H.
  - inversion H; subst. split; [intros k; tauto | tauto].
  - unfold bind in H. destruct (add_entry G entry) as [G1|] eqn:E1; [|discriminate].
    apply add_entry_keys in E1. destruct E1 as [Hin1 Hnd1].
    apply IH in H. destruct H as [Hin Hnd]. split; [|tauto].
    intros k. rewrite Hin, Hin1, flat_map_app, in_app_iff. tauto.
Qed.

Lemma build_keys data G :
  build_knowledge_graph data = Ok G ->
  NoDup (node_keys G) /\ (forall k, In k (node_keys G) <-> In k (data_keys data)).
Proof.
  unfold build_knowledge_graph. intros H. apply add_entries_keys in H.
  destruct H as [Hin Hnd]. split.
  - apply Hnd. constructor.
  - intros k. rewrite Hin. simpl. tauto.
Qed.

(** The builder returns a graph on every well-formed document set. *)

Lemma add_node_total G n kw :
  hashable n = true -> exists G', add_node G n kw = Ok G'.
Proof.
  unfold hashable, add_node, bind. destruct (node_key n) as [k|]; [|discriminate].
  intros _. destruct (Dict.get key_dec G k); eexists; reflexivity.
Qed.

Lemma add_edge_total G u v kw :
  hashable u = true -> hashable v = true -> exists G', add_edge G u v kw = Ok G'.
Proof.
  unfold hashable, add_edge, bind.
  destruct (node_key u) as [ku|]; [|discriminate].
  destruct (node_key v) as [kv|]; [|discriminate]. intros _ _.
  destruct (Dict.get key_dec (ensure_node (ensure_node G ku) kv) ku) eqn:E.
  - eexists; reflexivity.
  - exfalso. apply get_None_iff in E. apply E.
    apply in_keys_ensure_node. left. apply in_keys_ensure_node. now right.
Qed.

Lemma add_object_total G obj :
  well_formed_object obj = true -> exists G', add_object G obj = Ok G'.
Proof.
  destruct obj as [| | | | |m]; try discriminate.
  unfold well_formed_object, add_object, emits_edge.
  unfold node_id, node_name, get_or, getitem, bind.
  destruct (field m "type") as [ty|] eqn:Ety.
  2:{ simpl. intros _. eexists; reflexivity. }
  destruct (in_strs ty node_types) eqn:Ein.
  2:{ intros _. eexists; reflexivity. }
  intros H. apply andb_true_iff in H. destruct H as [Hid Hrefs].
  destruct (add_node_total G _
              [("label", AJson match field m "name" with
                               | Some v => v
                               | None => match field m "id" with
                                         | Some v => v
                                         | None => JStr "Unnamed"
                                         end
                               end); ("type", AJson ty)] Hid) as [G1 E1].
  rewrite E1.
  destruct (eq_str ty "relationship"); [|eexists; reflexivity].
  cbn [andb] in Hrefs.
  destruct (truthy _ && truthy _); [|eexists; reflexivity].
  apply andb_true_iff in Hrefs. destruct Hrefs as [Hs Ht].
  now apply add_edge_total.
Qed.

Lemma add_objects_total objs : forall G,
  forallb well_formed_object objs = true -> exists G', add_objects G objs = Ok G'.
Proof.
  induction objs as [|obj rest IH]; simpl; intros G H.
  - eexists; reflexivity.
  - apply andb_true_iff in H. destruct H as [Ho Hr].
    destruct (add_object_total G obj Ho) as [G1 E1]. rewrite E1. simpl.
    now apply IH.
Qed.

Lemma add_entry_total G entry :
  well_formed_entry entry = true -> exists G', add_entry G entry = Ok G'.
Proof.
  destruct entry as [| | | | |m]; try discriminate.
  unfold well_formed_entry, add_entry, contains, getitem, Dict.mem, field, bind.
  destruct (Dict.get string_dec m "objects") as [objs|]; [|eexists; reflexivity].
  destruct objs; try discriminate. simpl. apply add_objects_total.
Qed.

Lemma build_total data :
  well_formed_data data = true -> exists G, build_knowledge_graph data = Ok G.
Proof.
  unfold build_knowledge_graph, well_formed_data. generalize (@empty vec).
  induction data as [|entry rest IH]; simpl; intros G H.
  - eexists; reflexivity.
  - apply andb_true_iff in H. destruct H as [He Hr].
    destruct (add_entry_total G entry He) as [G1 E1]. rewrite E1. simpl.
    now apply IH.
Qed.
End BuilderFacts.

(** ** Edges and attributes *)

Section EdgeFacts.
Import MitreJson Vocabulary.
Variable vec : Type.
Implicit Types (G : DiGraph vec) (k : key).

Lemma has_node_set G k n x :
  has_node G x = true -> has_node (Dict.set key_dec G k n) x = true.
Proof.
  rewrite !has_node_iff. unfold node_keys. rewrite in_keys_set. tauto.
Qed.

Lemma has_node_set_same G k n : has_node (Dict.set key_dec G k n) k = true.
Proof.
  rewrite has_node_iff. unfold node_keys. rewrite in_keys_set. now right.
Qed.

Lemma has_node_ensure G n x :
  has_node G x = true -> has_node (ensure_node G n) x = true.
Proof.
  rewrite !has_node_iff, in_keys_ensure_node. tauto.
Qed.

Lemma edge_attrs_set G k n u v :
  edge_attrs (Dict.set key_dec G k n) u v =
  if key_dec k u then Dict.get key_dec (node_succ n) v else edge_attrs G u v.
Proof.
  unfold edge_attrs. rewrite get_set. now destruct (key_dec k u).
Qed.

Lemma edge_attrs_ensure G n u v :
  edge_attrs (ensure_node G n) u v = edge_attrs G u v.
Proof.
  unfold ensure_node. destruct (Dict.mem key_dec G n) eqn:E; [reflexivity|].
  rewrite edge_attrs_set. destruct (key_dec n u) as [->|]; [|reflexivity].
  unfold edge_attrs, Dict.mem in *. now destruct (Dict.get key_dec G u).
Qed.

Lemma no_dangling_empty : no_dangling (@empty vec).
Proof. intros u v a H. discriminate. Qed.

Lemma no_dangling_ensure G n : no_dangling G -> no_dangling (ensure_node G n).
Proof.
  intros HG u v a. rewrite edge_attrs_ensure. intros H.
  destruct (HG _ _ _ H). split; now apply has_node_ensure.
Qed.

Lemma no_dangling_add_node G n kw G' :
  no_dangling G -> add_node G n kw = Ok G' -> no_dangling G'.
Proof.
  intros HG. unfold add_node, bind.
  destruct (node_key n) as [k|]; [|discriminate].
  destruct (Dict.get key_dec G k) as [e|] eqn:E; intros H; inversion H; subst;
    clear H; intros u v a; rewrite edge_attrs_set;
    (destruct (key_dec k u) as [->|]; simpl; intros Hedge;
     [| destruct (HG _ _ _ Hedge); split; now apply has_node_set]).
  - assert (Hold : edge_attrs G u v = Some a) by (unfold edge_attrs; now rewrite E).
    destruct (HG _ _ _ Hold). split; now apply has_node_set.
  - discriminate.
Qed.

Lemma no_dangling_add_edge G s t kw G' :
  no_dangling G -> add_edge G s t kw = Ok G' -> no_dangling G'.
Proof.
  intros HG. unfold add_edge, bind.
  destruct (node_key s) as [ku|]; [|discriminate].
  destruct (node_key t) as [kv|]; [|discriminate].
  set (G2 := ensure_node (ensure_node G ku) kv).
  assert (H2 : no_dangling G2) by now apply no_dangling_ensure, no_dangling_ensure.
  assert (Hkv : has_node G2 kv = true).
  { apply has_node_iff, in_keys_ensure_node. now right. }
  destruct (Dict.get key_dec G2 ku) as [e|] eqn:E; [|discriminate].
  intros H. inversion H; subst; clear H. intros u v a.
  rewrite edge_attrs_set. destruct (key_dec ku u) as [->|]; simpl.
  - rewrite get_set. destruct (key_dec kv v) as [->|]; intros Hedge.
    + split; [apply has_node_set_same | now apply has_node_set].
    + assert (Hold : edge_attrs G2 u v = Some a)
        by (unfold edge_attrs; now rewrite E).
      destruct (H2 _ _ _ Hold). split; now apply has_node_set.
  - intros Hedge. destruct (H2 _ _ _ Hedge). split; now apply has_node_set.
Qed.

Lemma no_dangling_add_object G obj G' :
  no_dangling G -> add_object G obj = Ok G' -> no_dangling G'.
Proof.
  intros HG. unfold add_object, bind.
  destruct (get_or obj "type" JNull) as [ty|]; [|discriminate].
  destruct (in_strs ty node_types); [|intros H; inversion H; now subst].
  destruct (node_id obj) as [nid|]; [|discriminate].
  destruct (node_name obj) as [nname|]; [|discriminate].
  destruct (getitem obj "type") as [ty'|]; [|discriminate].
  destruct (add_node G nid _) as [G1|] eqn:E1; [|discriminate].
  apply (no_dangling_add_node _ _ _ _ HG) in E1.
  destruct (eq_str ty "relationship"); [|intros H; inversion H; now subst].
  destruct (get_or obj "source_ref" JNull) as [s|]; [|discriminate].
  destruct (get_or obj "target_ref" JNull) as [t|]; [|discriminate].
  destruct (get_or obj "relationship_type" _) as [r|]; [|discriminate].
  destruct (truthy s && truthy t); [|intros H; inversion H; now subst].
  now apply no_dangling_add_edge.
Qed.

Lemma no_dangling_add_objects objs : forall G G',
  no_dangling G -> add_objects G objs = Ok G' -> no_dangling G'.
Proof.
  induction objs as [|obj rest IH]; simpl; intros G G' HG H.
  - inversion H; now subst.
  - unfold bind in H. destruct (add_object G obj) as [G1|] eqn:E1; [|discriminate].
    eapply IH; [|exact H]. eapply no_dangling_add_object; eauto.
Qed.

Lemma no_dangling_add_entries data : forall G G',
  no_dangling G -> add_entries G data = Ok G' -> no_dangling G'.
Proof.
  induction data as [|entry rest IH]; simpl; intros G G' HG H.
  - inversion H; now subst.
  - unfold bind in H. destruct (add_entry G entry) as [G1|] eqn:E1; [|discriminate].
    eapply IH; [|exact H]. clear H. unfold add_entry, bind in E1.
    destruct (contains entry "objects") as [[|]|]; try discriminate.
    + destruct (getitem entry "objects") as [objs|]; [|discriminate].
      destruct (iter objs) as [l|]; [|discriminate].
      eapply no_dangling_add_objects; eauto.
    + inversion E1; now subst.
Qed.

(** Attributes: what [add_node] writes, and what [add_edge] leaves. *)

Lemma update_label_type (d : attrs vec) x y :
  let d' := update d [("label", x); ("type", y)] in
  Dict.get string_dec d' "label" = Some x /\ Dict.get string_dec d' "type" = Some y.
Proof.
  unfold update. cbn [fold_left fst snd]. split.
  - rewrite get_set_other by discriminate. apply get_set_same.
  - apply get_set_same.
Qed.

Lemma add_node_attrs G n x y G' :
  add_node G n [("label", x); ("type", y)] = Ok G' ->
  exists k a, node_key n = Ok k /\ node_attrs G' k = Some a /\
    Dict.get string_dec a "label" = Some x /\
    Dict.get string_dec a "type" = Some y.
Proof.
  unfold add_node, bind. destruct (node_key n) as [k|]; [|discriminate].
  destruct (Dict.get key_dec G k) as [e|]; intros [= <-];
    exists k; eexists; (split; [reflexivity|]); unfold node_attrs;
    rewrite get_set_same; (split; [reflexivity|]).
  - exact (update_label_type (node_attr e) x y).
  - exact (update_label_type [] x y).
Qed.

Lemma add_edge_keeps_attrs G s t kw G' k a :
  add_edge G s t kw = Ok G' ->
  node_attrs G k = Some a -> node_attrs G' k = Some a.
Proof.
  unfold add_edge, bind, node_attrs.
  destruct (node_key s) as [ku|]; [|discriminate].
  destruct (node_key t) as [kv|]; [|discriminate].
  destruct (Dict.get key_dec G k) as [e|] eqn:Ek; [|discriminate].
  simpl. intros H Ha.
  assert (E2 : Dict.get key_dec (ensure_node (ensure_node G ku) kv) k = Some e)
    by now apply get_ensure_node_old, get_ensure_node_old.
  destruct (Dict.get key_dec (ensure_node (ensure_node G ku) kv) ku) as [e'|] eqn:E;
    [|discriminate].
  inversion H; subst; clear H. rewrite get_set.
  destruct (key_dec ku k) as [->|]; simpl.
  - rewrite E2 in E. inversion E; subst. exact Ha.
  - rewrite E2. exact Ha.
Qed.

Lemma add_edge_new_endpoint G s t kw G' ku kv k :
  add_edge G s t kw = Ok G' ->
  node_key s = Ok ku -> node_key t = Ok kv ->
  k = ku \/ k = kv -> has_node G k = false -> node_attrs G' k = Some [].
Proof.
  unfold add_edge, bind, node_attrs. intros H Hs Ht Hk Hnew.
  rewrite Hs, Ht in H.
  assert (Hget : Dict.get key_dec (ensure_node (ensure_node G ku) kv) k
                 = Some (mkNode [] [])).
  { destruct (key_dec k ku) as [->|Hne].
    - apply get_ensure_node_old. now apply get_ensure_node_new.
    - destruct Hk as [->| ->]; [contradiction|].
      apply get_ensure_node_new. apply mem_false_iff. fold (node_keys (ensure_node G ku)).
      rewrite in_keys_ensure_node. apply mem_false_iff in Hnew.
      fold (node_keys G) in Hnew. tauto. }
  destruct (Dict.get key_dec (ensure_node (ensure_node G ku) kv) ku) as [e'|] eqn:E;
    [|discriminate].
  inversion H; subst; clear H. rewrite get_set.
  destruct (key_dec ku k) as [->|]; simpl.
  - rewrite Hget in E. now inversion E.
  - now rewrite Hget.
Qed.
End EdgeFacts.

(** * The graph builder: claims *)

Section BuilderClaims.
Import MitreJson Vocabulary.

Lemma same_elements_same_length (l l' : list key) :
  NoDup l -> (forall k, In k l <-> In k l') ->
  length l = length (nodup key_dec l').
Proof.
  intros Hnd Hin. apply Permutation_length, NoDup_Permutation.
  - exact Hnd.
  - apply NoDup_nodup.
  - intros k. rewrite nodup_In. apply Hin.
Qed.

(** C2 (amended).  Objects of type attack-pattern, malware, tool and also
    relationship produce nodes, and the endpoints of every emitted edge are
    nodes too: on every well-formed document set the builder returns a
    graph, and the number of nodes of a returned graph is the number of
    distinct keys among the identity keys of the objects of these four
    types and the endpoint keys of the relationships that emit an edge.
    The concrete scenario yields three nodes, "T1", "T2" and "unknown" (the
    relationship object, which has no id), and one edge T1->T2 labelled
    "uses". *)
Theorem node_count_is_distinct_touched_keys (vec : Type) :
  (forall (data : list json),
      well_formed_data data = true ->
      exists G : DiGraph vec, build_knowledge_graph data = Ok G)
  /\ (forall (data : list json) (G : DiGraph vec),
      build_knowledge_graph data = Ok G ->
      NoDup (node_keys G)
      /\ (forall k, has_node G k = true <-> In k (data_keys data))
      /\ length (node_keys G) = length (nodup key_dec (data_keys data)))
  /\ (exists G : DiGraph vec,
      build_knowledge_graph scenario = Ok G
      /\ node_keys G = [KStr "T1"; KStr "T2"; KStr "unknown"]
      /\ edges_data G =
         [(KStr "T1", KStr "T2", [("relationship", AJson (JStr "uses"))])]).
Proof.
  split; [|split].
  - intros data. apply build_total.
  - intros data G H. apply build_keys in H. destruct H as [Hnd Hin].
    split; [exact Hnd|]. split.
    + intros k. rewrite has_node_iff. apply Hin.
    + now apply same_elements_same_length.
  - eexists. split; [reflexivity|]. split; reflexivity.
Qed.

Lemma node_count_is_distinct_touched_keys_witness :
  exists G : DiGraph unit,
    build_knowledge_graph scenario = Ok G
    /\ length (node_keys G) = length (nodup key_dec (data_keys scenario)).
Proof.
  destruct (proj1 (node_count_is_distinct_touched_keys unit) scenario eq_refl)
    as [G HG].
  exists G. split; [exact HG|].
  apply (proj1 (proj2 (node_count_is_distinct_touched_keys unit)) scenario G HG).
Defined.

(** C2 as stated fails: on the scenario of the specification the graph has
    three nodes, while the attack-pattern, malware and tool objects carry
    two distinct identity keys. *)
Lemma node_count_counterexample :
  ~ (forall (data : list json) (G : DiGraph unit),
        build_knowledge_graph data = Ok G ->
        length (node_keys G) = length (nodup key_dec (entity_keys data))).
Proof.
  intros H.
  specialize (H scenario _ eq_refl). vm_compute in H. discriminate.
Qed.

(** C3 (amended).  When the builder upserts an edge for a relationship
    object, each endpoint key becomes a node of the graph: an endpoint that
    was not a node before, and is not the key of the relationship object
    itself, is created as a node with no attributes.  Hence no graph the
    builder returns has a dangling endpoint. *)
Theorem edge_endpoints_become_nodes (vec : Type) :
  (forall (G G' : DiGraph vec) (obj : json) (k : key),
      add_object G obj = Ok G' ->
      In k (endpoint_keys obj) ->
      has_node G' k = true
      /\ (has_node G k = false ->
          ~ In k (object_identity node_types obj) ->
          node_attrs G' k = Some []))
  /\ (forall (data : list json) (G : DiGraph vec),
      build_knowledge_graph data = Ok G -> no_dangling G).
Proof.
  split.
  - intros G G' obj k H Hk. split.
    + apply has_node_iff. apply (proj1 (add_object_keys vec G obj G' H)).
      right. unfold object_keys. apply in_app_iff. now right.
    + intros Hnew Hself. revert H Hk Hself.
      unfold add_object, endpoint_keys, emits_edge, object_identity, bind.
      destruct (get_or obj "type" JNull) as [ty|]; [|discriminate].
      destruct (get_or obj "source_ref" JNull) as [s|]; [|intros _ []].
      destruct (get_or obj "target_ref" JNull) as [t|]; [|intros _ []].
      destruct (eq_str ty "relationship") eqn:Erel; [|intros _ []].
      destruct (in_strs ty node_types) eqn:Ein.
      2:{ apply relationship_is_node_type in Ein. congruence. }
      destruct (node_id obj) as [nid|]; [|discriminate].
      destruct (node_name obj) as [nname|]; [|discriminate].
      destruct (getitem obj "type") as [ty'|]; [|discriminate].
      destruct (add_node G nid _) as [G1|] eqn:E1; [|discriminate].
      destruct (get_or obj "relationship_type" _) as [r|]; [|discriminate].
      cbn [andb]. destruct (truthy s && truthy t); [|intros _ []].
      intros H Hk Hself.
      apply add_node_keys in E1. destruct E1 as (k1 & Hk1 & Hin1 & _).
      unfold key_list in Hself. rewrite Hk1 in Hself.
      assert (Hnew1 : has_node G1 k = false).
      { apply mem_false_iff. apply mem_false_iff in Hnew.
        fold (node_keys G1). fold (node_keys G) in Hnew.
        rewrite Hin1. simpl in Hself. intuition. }
      destruct (add_edge_keys _ _ _ _ _ _ H) as (ku & kv & Hu & Hv & _).
      apply (add_edge_new_endpoint _ _ _ _ _ _ ku kv k H Hu Hv); [|exact Hnew1].
      unfold key_list in Hk. rewrite Hu, Hv in Hk. simpl in Hk.
      destruct Hk as [<-|[<-|[]]]; tauto.
  - intros data G H. unfold build_knowledge_graph in H.
    eapply no_dangling_add_entries; [apply no_dangling_empty | exact H].
Qed.

Lemma edge_endpoints_become_nodes_witness :
  exists G' : DiGraph unit,
    add_object empty lone_relationship = Ok G'
    /\ has_node G' (KStr "A") = true
    /\ node_attrs G' (KStr "A") = Some [].
Proof.
  eexists. split; [reflexivity|].
  pose proof (proj1 (edge_endpoints_become_nodes unit) empty _ lone_relationship
                (KStr "A") eq_refl) as H.
  destruct H as [Hnode Hbare].
  - simpl. now left.
  - split; [exact Hnode|]. apply Hbare; [reflexivity|].
    simpl. intros [E|[]]. discriminate.
Defined.

(** C3 as stated fails: the relationship A->B, processed on the empty
    graph, leaves "A" a node although no node "A" existed and no object
    has that identity key. *)
Lemma endpoint_creates_node_counterexample :
  ~ (forall (G G' : DiGraph unit) (obj : json) (k : key),
        add_object G obj = Ok G' ->
        In k (endpoint_keys obj) ->
        has_node G k = false ->
        ~ In k (object_identity node_types obj) ->
        has_node G' k = false).
Proof.
  intros H.
  assert (E : has_node (vec := unit)
                match add_object empty lone_relationship with
                | Ok G' => G'
                | Raise _ => empty
                end (KStr "A") = false).
  { apply (H empty _ lone_relationship (KStr "A")).
    - reflexivity.
    - simpl. now left.
    - reflexivity.
    - simpl. intros [E|[]]. discriminate. }
  vm_compute in E. discriminate.
Qed.

(** C4.  For every object the builder turns into a node, the identity key
    is the object's [id] if present, else its [external_id] if present,
    else "unknown"; the label is its [name] if present, else its [id], else
    "Unnamed"; and the node stored under that key carries this label and
    the object's type. *)
Theorem node_identity_and_label (vec : Type) (G G' : DiGraph vec)
  (m : list (string * json)) (ty : json) :
  field m "type" = Some ty ->
  in_strs ty node_types = true ->
  add_object G (JObj m) = Ok G' ->
  node_id (JObj m) = Ok (spec_identity m)
  /\ node_name (JObj m) = Ok (spec_label m)
  /\ exists k a,
       node_key (spec_identity m) = Ok k
       /\ node_attrs G' k = Some a
       /\ Dict.get string_dec a "label" = Some (AJson (spec_label m))
       /\ Dict.get string_dec a "type" = Some (AJson ty).
Proof.
  intros Hty Hin H. split; [reflexivity|]. split; [reflexivity|].
  revert H. unfold add_object, bind. cbn [get_or getitem].
  rewrite Hty, Hin.
  change (node_id (JObj m)) with (Ok (spec_identity m)).
  change (node_name (JObj m)) with (Ok (spec_label m)). cbv beta iota.
  destruct (add_node G (spec_identity m) _) as [G1|] eqn:E1; [|discriminate].
  apply add_node_attrs in E1. destruct E1 as (k & a & Hk & Ha & Hl & Ht).
  assert (Hkeep : forall G2, Ok G1 = Ok G2 ->
            exists k a, node_key (spec_identity m) = Ok k
              /\ node_attrs G2 k = Some a
              /\ Dict.get string_dec a "label" = Some (AJson (spec_label m))
              /\ Dict.get string_dec a "type" = Some (AJson ty)).
  { intros G2 [= <-]. exists k, a. tauto. }
  destruct (eq_str ty "relationship"); [|apply Hkeep].
  destruct (truthy _ && truthy _); [|apply Hkeep].
  intros H. exists k, a. split; [exact Hk|]. split; [|tauto].
  eapply add_edge_keeps_attrs; eauto.
Qed.

Lemma node_identity_and_label_witness :
  let m := [("type", JStr "malware"); ("external_id", JStr "S0002")] in
  exists k a,
    node_key (spec_identity m) = Ok k
    /\ node_attrs (vec := unit)
         [(KStr "S0002",
           mkNode [("label", AJson (JStr "Unnamed"));
                   ("type", AJson (JStr "malware"))] [])] k = Some a
    /\ Dict.get string_dec a "label" = Some (AJson (spec_label m))
    /\ Dict.get string_dec a "type" = Some (AJson (JStr "malware")).
Proof.
  intros m.
  exact (proj2 (proj2 (node_identity_and_label unit empty _ m (JStr "malware")
                         eq_refl eq_refl eq_refl))).
Defined.
End BuilderClaims.

(** * The builder on the store *)

Section InWorldFacts.
Import MitreJson InWorld.
Variable vec : Type.
Implicit Types (w : world vec) (G P : DiGraph vec) (r : nat).

Lemma replace_nth_same {A : Type} (l : list A) (i : nat) (x : A) :
  nth_error l i = Some x -> replace_nth l i x = l.
Proof.
  revert i. induction l as [|h t IH]; intros [|i]; simpl; try discriminate.
  - now intros [= ->].
  - intros H. now rewrite IH.
Qed.

Lemma replace_nth_twice {A : Type} (l : list A) (i : nat) (x y : A) :
  replace_nth (replace_nth l i x) i y = replace_nth l i y.
Proof.
  revert i. induction l as [|h t IH]; intros [|i]; simpl; try reflexivity.
  now rewrite IH.
Qed.

Lemma nth_error_replace_nth {A : Type} (l : list A) (i : nat) (x y : A) :
  nth_error l i = Some x -> nth_error (replace_nth l i y) i = Some y.
Proof.
  revert i. induction l as [|h t IH]; intros [|i]; simpl; try discriminate.
  - reflexivity.
  - apply IH.
Qed.

Lemma replace_nth_last {A : Type} (l : list A) (x y : A) :
  replace_nth (l ++ [x]) (length l) y = l ++ [y].
Proof. induction l as [|h t IH]; simpl; [reflexivity | now rewrite IH]. Qed.

Lemma put_same r G w : nth_error (graphs w) r = Some G -> put r G w = w.
Proof.
  intros H. unfold put. rewrite (replace_nth_same _ _ _ H). now destruct w.
Qed.

Lemma put_put r G P w : put r P (put r G w) = put r P w.
Proof. unfold put. simpl. now rewrite replace_nth_twice. Qed.

Lemma put_at r G P w :
  nth_error (graphs w) r = Some G -> nth_error (graphs (put r P w)) r = Some P.
Proof. intros H. unfold put. simpl. exact (nth_error_replace_nth _ _ _ _ H). Qed.

Lemma tracks_raise r G w (e : exn) :
  nth_error (graphs w) r = Some G -> tracks (Raise e, w) (Raise e) r w.
Proof.
  intros H. exists G. simpl. split; [now rewrite (put_same _ _ _ H)|].
  split; [reflexivity | discriminate].
Qed.

Lemma tracks_stay r G w :
  nth_error (graphs w) r = Some G -> tracks (Ok tt, w) (Ok G) r w.
Proof.
  intros H. exists G. simpl. split; [now rewrite (put_same _ _ _ H)|].
  split; [reflexivity | now intros G' [= <-]].
Qed.

Lemma tracks_put r G1 w :
  tracks (Ok tt, put r G1 w) (Ok G1) r w.
Proof.
  exists G1. simpl. split; [reflexivity|].
  split; [reflexivity | now intros G' [= <-]].
Qed.

Lemma method_tracks r G w (f : DiGraph vec -> result (DiGraph vec)) :
  nth_error (graphs w) r = Some G -> tracks (method r f w) (f G) r w.
Proof.
  intros H. unfold method. rewrite H. destruct (f G) as [G'|e].
  - apply tracks_put.
  - now apply (tracks_raise r G).
Qed.

Lemma add_object_at_tracks r G w (obj : json) :
  nth_error (graphs w) r = Some G ->
  tracks (add_object_at r obj w) (add_object G obj) r w.
Proof.
  intros H. unfold add_object_at, add_object, bindp, lift, ret, bind.
  destruct (get_or obj "type" JNull) as [ty|e]; [|now apply (tracks_raise r G)].
  destruct (in_strs ty node_types); [|now apply tracks_stay].
  destruct (node_id obj) as [nid|e]; [|now apply (tracks_raise r G)].
  destruct (node_name obj) as [nname|e]; [|now apply (tracks_raise r G)].
  destruct (getitem obj "type") as [ty'|e]; [|now apply (tracks_raise r G)].
  unfold method at 1. rewrite H.
  destruct (add_node G nid _) as [G1|e]; [|now apply (tracks_raise r G)].
  pose proof (put_at r G G1 w H) as H1.
  assert (Hraise : forall e, tracks (Raise e, put r G1 w) (Raise e) r w).
  { intros e. exists G1. simpl. split; [reflexivity|].
    split; [reflexivity | discriminate]. }
  destruct (eq_str ty "relationship"); [|apply tracks_put].
  destruct (get_or obj "source_ref" JNull) as [s|e]; [|apply Hraise].
  destruct (get_or obj "target_ref" JNull) as [t|e]; [|apply Hraise].
  destruct (get_or obj "relationship_type" _) as [rel|e]; [|apply Hraise].
  destruct (truthy s && truthy t); [|apply tracks_put].
  unfold method. rewrite H1.
  destruct (add_edge G1 s t _) as [G2|e]; [|apply Hraise].
  rewrite put_put. apply tracks_put.
Qed.

Lemma tracks_then r G w (first : result unit * world vec)
  (pure1 : result (DiGraph vec))
  (next : world vec -> result unit * world vec)
  (pure2 : DiGraph vec -> result (DiGraph vec)) :
  nth_error (graphs w) r = Some G ->
  tracks first pure1 r w ->
  (forall G1, pure1 = Ok G1 -> tracks (next (put r G1 w)) (pure2 G1) r (put r G1 w)) ->
  tracks match first with
         | (Ok _, w1) => next w1
         | (Raise e, w1) => (Raise e, w1)
         end
         match pure1 with
         | Ok G1 => pure2 G1
         | Raise e => Raise e
         end r w.
Proof.
  intros H (P & Hsnd & Hfst & HP) Hnext. destruct first as [res w1].
  simpl in Hsnd, Hfst. subst w1. destruct pure1 as [G1|e]; subst res.
  - rewrite (HP G1 eq_refl) in *.
    destruct (Hnext G1 eq_refl) as (P2 & Hsnd2 & Hfst2 & HP2).
    exists P2. rewrite put_put in Hsnd2. tauto.
  - exists P. simpl. split; [reflexivity|]. split; [reflexivity | discriminate].
Qed.

Lemma add_objects_at_tracks r (objs : list json) : forall G w,
  nth_error (graphs w) r = Some G ->
  tracks (add_objects_at r objs w) (add_objects G objs) r w.
Proof.
  induction objs as [|obj rest IH]; intros G w H.
  - now apply tracks_stay.
  - cbn [add_objects_at add_objects]. unfold bindp, bind.
    apply (tracks_then r G w _ _ (add_objects_at r rest)
             (fun G1 => add_objects G1 rest) H).
    + now apply add_object_at_tracks.
    + intros G1 _. apply IH. exact (put_at r G G1 w H).
Qed.

Lemma add_entry_at_tracks r G w (entry : json) :
  nth_error (graphs w) r = Some G ->
  tracks (add_entry_at r entry w) (add_entry G entry) r w.
Proof.
  intros H. unfold add_entry_at, add_entry, bindp, lift, ret, bind.
  destruct (contains entry "objects") as [[|]|e];
    [| now apply tracks_stay | now apply (tracks_raise r G)].
  destruct (getitem entry "objects") as [objs|e]; [|now apply (tracks_raise r G)].
  destruct (iter objs) as [l|e]; [|now apply (tracks_raise r G)].
  now apply add_objects_at_tracks.
Qed.

Lemma add_entries_at_tracks r (data : list json) : forall G w,
  nth_error (graphs w) r = Some G ->
  tracks (add_entries_at r data w) (add_entries G data) r w.
Proof.
  induction data as [|entry rest IH]; intros G w H.
  - now apply tracks_stay.
  - cbn [add_entries_at add_entries]. unfold bindp, bind.
    apply (tracks_then r G w _ _ (add_entries_at r rest)
             (fun G1 => add_entries G1 rest) H).
    + now apply add_entry_at_tracks.
    + intros G1 _. apply IH. exact (put_at r G G1 w H).
Qed.

(** One run: a fresh address, the graph of the builder at it, and nothing
    else of the store changed. *)
Lemma run_build_spec (data : list json) w :
  exists P,
    snd (run_build_knowledge_graph data w)
    = mkWorld (graphs w ++ [P]) (faiss_index w) (stdout w)
    /\ fst (run_build_knowledge_graph data w)
       = match @build_knowledge_graph vec data with
         | Ok _ => Ok (length (graphs w))
         | Raise e => Raise e
         end
    /\ (forall G, build_knowledge_graph data = Ok G -> P = G).
Proof.
  unfold run_build_knowledge_graph, bindp, new_DiGraph, ret.
  set (w0 := mkWorld (graphs w ++ [empty]) (faiss_index w) (stdout w)).
  assert (H0 : nth_error (graphs w0) (length (graphs w)) = Some empty).
  { simpl. rewrite nth_error_app2 by lia. now rewrite Nat.sub_diag. }
  destruct (add_entries_at_tracks (length (graphs w)) data empty w0 H0)
    as (P & Hsnd & Hfst & HP).
  fold (@build_knowledge_graph vec data) in Hfst, HP.
  destruct (add_entries_at (length (graphs w)) data w0) as [res w1].
  simpl in Hsnd, Hfst. subst w1 res. exists P.
  assert (Hput : put (length (graphs w)) P w0
                 = mkWorld (graphs w ++ [P]) (faiss_index w) (stdout w)).
  { unfold put, w0. simpl. now rewrite replace_nth_last. }
  destruct (@build_knowledge_graph vec data); simpl; rewrite Hput; auto.
Qed.

(** C7.  Two applications of [build_knowledge_graph] to the same document
    sequence, from whatever states of the interpreter (in particular the
    second from the state the first has left), have the same outcome: each
    returns a graph object at a fresh address, the two graphs have the same
    nodes with the same attributes and the same edges with the same
    attributes, or both raise the same exception.  Each application leaves
    every graph that existed, the module-level index and the standard
    output as they were. *)
Theorem build_is_a_function_of_its_input (data : list json) (w w' : world vec) :
  exists P P',
    snd (run_build_knowledge_graph data w)
    = mkWorld (graphs w ++ [P]) (faiss_index w) (stdout w)
    /\ snd (run_build_knowledge_graph data w')
       = mkWorld (graphs w' ++ [P']) (faiss_index w') (stdout w')
    /\ match fst (run_build_knowledge_graph data w),
             fst (run_build_knowledge_graph data w') with
       | Ok a, Ok a' =>
           a = length (graphs w) /\ a' = length (graphs w')
           /\ nodes_data P = nodes_data P'
           /\ edges_data P = edges_data P'
           /\ build_knowledge_graph data = Ok P
       | Raise e, Raise e' => e = e'
       | _, _ => False
       end.
Proof.
  destruct (run_build_spec data w) as (P & Hsnd & Hfst & HP).
  destruct (run_build_spec data w') as (P' & Hsnd' & Hfst' & HP').
  exists P, P'. split; [exact Hsnd|]. split; [exact Hsnd'|].
  rewrite Hfst, Hfst'. destruct (@build_knowledge_graph vec data) as [G|e].
  - rewrite (HP G eq_refl), (HP' G eq_refl). repeat split; reflexivity.
  - reflexivity.
Qed.
End InWorldFacts.

(** * The corpus loader *)

Section LoaderClaims.
Import MitreJson Vocabulary.

Lemma load_loop_spec (open_read : string -> result string)
  (json_load : string -> result json) (files : list string) :
  forallb (loads_or_skips open_read json_load) files = true ->
  forall data out,
    load_loop open_read json_load files data out =
    (Ok (data ++ parsed_documents open_read json_load files),
     out ++ map skip_message (filter (undecodable open_read json_load) files)).
Proof.
  induction files as [|file rest IH]; simpl; intros Hall data out.
  - now rewrite !app_nil_r.
  - apply andb_true_iff in Hall. destruct Hall as [Hfile Hrest].
    unfold loads_or_skips, undecodable in *.
    destruct (open_read file) as [f|]; [|discriminate].
    destruct (json_load f) as [content|e].
    + rewrite (IH Hrest). now rewrite <- app_assoc.
    + destruct e; try discriminate.
      rewrite (IH Hrest). simpl. now rewrite <- app_assoc.
Qed.

(** C5 (amended).  For every path whose candidates can be discovered (a
    directory path can be listed), whose candidates can all be opened and
    whose decoding raises nothing but a JSON decode error, the loader
    returns the successfully parsed documents in candidate-discovery
    order; every candidate whose content fails JSON decoding is reported
    with a diagnostic naming that file and is excluded, and loading
    continues over the remaining candidates. *)
Theorem load_json_files_skips_undecodable
  (isdir : string -> bool) (listdir : string -> result (list string))
  (open_read : string -> result string) (json_load : string -> result json)
  (path : string) (out : list string) (files : list string) :
  json_files isdir listdir path = Ok files ->
  forallb (loads_or_skips open_read json_load) files = true ->
  load_json_files isdir listdir open_read json_load path out =
  (Ok (parsed_documents open_read json_load files),
   out ++ map skip_message (filter (undecodable open_read json_load) files)).
Proof.
  intros Hfiles Hall. unfold load_json_files. rewrite Hfiles.
  now rewrite load_loop_spec.
Qed.

Lemma load_json_files_skips_undecodable_witness :
  load_json_files corpus_isdir corpus_listdir corpus_open corpus_json_load
    "corpus" [] =
  (Ok [JObj []], ["Skipping invalid JSON file: corpus/b.json"]).
Proof.
  exact (load_json_files_skips_undecodable
           corpus_isdir corpus_listdir corpus_open corpus_json_load
           "corpus" [] ["corpus/a.json"; "corpus/b.json"] eq_refl eq_refl).
Defined.

(** C5 as stated fails: a path that ends in ".json" and names no existing
    file is a candidate, [open] raises, and the exception leaves the
    loader; the caller receives no sequence. *)
Lemma load_json_files_counterexample :
  ~ (forall (isdir : string -> bool) (listdir : string -> result (list string))
            (open_read : string -> result string)
            (json_load : string -> result json) (path : string),
        exists docs out,
          load_json_files isdir listdir open_read json_load path [] =
          (Ok docs, out)).
Proof.
  intros H.
  destruct (H corpus_isdir corpus_listdir corpus_open corpus_json_load
              "missing.json") as (docs & out & E).
  vm_compute in E. discriminate.
Qed.
End LoaderClaims.

(** * The embedding indexer *)

Section IndexerFacts.
Import MitreJson Vocabulary.
Variable vec : Type.
Implicit Types (G : DiGraph vec) (k : key).

Lemma nodes_data_keys G : map fst (nodes_data G) = node_keys G.
Proof.
  unfold nodes_data, node_keys, Dict.keys. rewrite map_map. reflexivity.
Qed.

Lemma set_node_attr_spec G k a x :
  has_node G k = true ->
  exists G' old,
    set_node_attr G k a x = Ok G'
    /\ node_keys G' = node_keys G
    /\ node_attrs G k = Some old
    /\ node_attrs G' k = Some (Dict.set string_dec old a x)
    /\ (forall k0, k0 <> k -> node_attrs G' k0 = node_attrs G k0).
Proof.
  unfold has_node, set_node_attr, node_attrs. intros Hk.
  pose proof Hk as Hmem. unfold Dict.mem in Hk.
  destruct (Dict.get key_dec G k) as [e|] eqn:E; [|discriminate].
  eexists. exists (node_attr e). split; [reflexivity|]. split; [|split; [|split]].
  - unfold node_keys. rewrite keys_set, Hmem. reflexivity.
  - reflexivity.
  - rewrite get_set_same. reflexivity.
  - intros k0 Hne. rewrite get_set_other by congruence. reflexivity.
Qed.

Lemma store_embeddings_spec (embs : list vec) (nl : list (key * attrs vec)) :
  forall G i,
    NoDup (map fst nl) ->
    (forall k, In k (map fst nl) -> has_node G k = true) ->
    i + length nl <= length embs ->
    exists G',
      store_embeddings G i nl embs = Ok G'
      /\ node_keys G' = node_keys G
      /\ (forall j k, nth_error (map fst nl) j = Some k ->
            exists e a, nth_error embs (i + j) = Some e
                        /\ node_attrs G' k = Some a
                        /\ Dict.get string_dec a "embedding" = Some (AVec e))
      /\ (forall k, ~ In k (map fst nl) -> node_attrs G' k = node_attrs G k).
Proof.
  induction nl as [|[nid x] rest IH]; simpl; intros G i Hnd Hhas Hlen.
  - exists G. split; [reflexivity|]. split; [reflexivity|]. split; [|reflexivity].
    intros [|j] k; discriminate.
  - inversion Hnd as [|? ? Hnotin Hnd']; subst.
    destruct (nth_error embs i) as [e|] eqn:Ee.
    2:{ apply nth_error_None in Ee. lia. }
    destruct (set_node_attr_spec G nid "embedding" (AVec e))
      as (G1 & old & E1 & Hkeys1 & Hold & Hnew & Hother); [now apply Hhas; left|].
    rewrite E1. simpl.
    destruct (IH G1 (S i) Hnd') as (G' & E' & Hkeys' & Hpos & Hrest).
    { intros k Hk. apply has_node_iff. rewrite Hkeys1. apply has_node_iff.
      apply Hhas. now right. }
    { lia. }
    exists G'. split; [exact E'|]. split; [congruence|]. split.
    + intros [|j] k Hj; simpl in Hj.
      * inversion Hj; subst. exists e. eexists. rewrite Nat.add_0_r.
        split; [exact Ee|]. split.
        -- rewrite (Hrest k Hnotin). exact Hnew.
        -- apply get_set_same.
      * destruct (Hpos j k Hj) as (e' & a & He' & Ha & Hg).
        exists e', a. rewrite Nat.add_succ_r. tauto.
    + intros k Hk. rewrite Hrest by tauto. apply Hother. intros ->. tauto.
Qed.
End IndexerFacts.

Section IndexerClaims.
Import MitreJson Vocabulary.
Variable vec : Type.
Variable encode : list (attr_value vec) -> result (list vec).
Variable normalize_L2 : vec -> vec.

Lemma faiss_normalize_L2_rows (embs : list vec) :
  embs <> [] ->
  faiss_normalize_L2 normalize_L2 embs = Ok (map normalize_L2 embs).
Proof. destruct embs; [contradiction | reflexivity]. Qed.


End IndexerClaims.

Section IndexerWitnesses.
Import MitreJson Vocabulary.



End IndexerWitnesses.

(** * The platform filter *)

Section ProcessorFacts.
Import MitreProcessor2 Vocabulary.
Variable lower : string -> string.

Lemma existsb_nowhere {A : Type} (l : list A) : existsb (fun _ => false) l = false.
Proof. induction l; simpl; auto. Qed.

Lemma existsb_lower (f : string -> bool) (ps : list string) :
  existsb (fun p => f (lower p)) ps = existsb f (map lower ps).
Proof.
  induction ps as [|p rest IH]; simpl; [reflexivity | now rewrite IH].
Qed.

Lemma platform_matches_case (target : string) (ps ps' : list string) :
  map lower ps' = map lower ps ->
  platform_matches lower target ps' = platform_matches lower target ps.
Proof.
  intros H. unfold platform_matches.
  induction (get_expanded_platforms target) as [|e es IH]; simpl; [reflexivity|].
  rewrite IH. f_equal.
  rewrite (existsb_lower (fun q => String.eqb q (lower e)) ps').
  rewrite (existsb_lower (fun q => String.eqb q (lower e)) ps).
  now rewrite H.
Qed.

Lemma filter_objects_spec (platform : string) (objs : list json) :
  forall filtered,
    filter_objects lower objs platform = Ok filtered ->
    filtered = filter (selected lower platform) objs.
Proof.
  induction objs as [|o rest IH]; simpl; intros filtered H.
  - now inversion H.
  - unfold bind in H. unfold selected.
    destruct (get_or o "type" JNull) as [ty|]; [|discriminate].
    destruct (eq_str ty "attack-pattern"); simpl.
    + destruct (platform_check lower o platform) as [keep|]; [|discriminate].
      destruct (filter_objects lower rest platform) as [kept|]; [|discriminate].
      pose proof (IH kept eq_refl) as Hk. inversion H; subst. reflexivity.
    + destruct (filter_objects lower rest platform) as [kept|]; [|discriminate].
      pose proof (IH kept eq_refl) as Hk. inversion H; subst. reflexivity.
Qed.

(** On lists of strings the check raises nothing. *)

Lemma strings_of (l : list json) :
  forallb is_string l = true -> exists ps, l = map JStr ps.
Proof.
  induction l as [|v rest IH]; simpl; intros H.
  - now exists [].
  - apply andb_true_iff in H. destruct H as [Hv Hrest].
    destruct (IH Hrest) as [ps ->]. destruct v; try discriminate.
    now exists (s :: ps).
Qed.

Lemma normalize_platform_string (s : string) :
  exists s', normalize_platform lower (JStr s) = Ok s'.
Proof.
  unfold normalize_platform. destruct (truthy (JStr s)); eexists; reflexivity.
Qed.

Lemma match_object_platforms_total (e : string) (ps : list string) :
  exists b, match_object_platforms lower e (map JStr ps) = Ok b.
Proof.
  induction ps as [|p rest IH]; simpl; [now exists false|].
  destruct (normalize_platform_string p) as [a ->].
  destruct (normalize_platform_string e) as [b ->]. simpl.
  destruct (String.eqb a b); [now exists true | exact IH].
Qed.

Lemma match_expanded_total (es : list string) (ps : list string) :
  exists b, match_expanded lower es (JArr (map JStr ps)) = Ok b.
Proof.
  induction es as [|e rest IH]; simpl; [now exists false|].
  destruct (match_object_platforms_total e ps) as [hit ->]. simpl.
  destruct hit; [now exists true | exact IH].
Qed.

Lemma platform_check_total (o : json) (target : string) :
  checkable_object o = true ->
  exists b, platform_check lower o target = Ok b.
Proof.
  destruct o as [| | | | |m]; try discriminate.
  unfold checkable_object, platform_check, bind. cbn [get_or].
  destruct (field m "x_mitre_platforms") as [v|]; [|now exists false].
  destruct v as [| | | |l|]; try discriminate.
  intros H. destruct (strings_of l H) as [ps ->].
  destruct (negb (truthy (JArr (map JStr ps)))); [now exists false|].
  apply match_expanded_total.
Qed.

Lemma filter_objects_checkable (platform : string) (objs : list json) :
  forallb checkable_object objs = true ->
  filter_objects lower objs platform = Ok (filter (selected lower platform) objs).
Proof.
  induction objs as [|o rest IH]; simpl; intros H; [reflexivity|].
  apply andb_true_iff in H. destruct H as [Ho Hrest].
  rewrite (IH Hrest). unfold selected, bind.
  destruct (platform_check_total o platform Ho) as [b Hb].
  destruct o as [| | | | |m]; try discriminate. cbn [get_or] in *.
  destruct (eq_str _ "attack-pattern"); simpl.
  - rewrite Hb. reflexivity.
  - reflexivity.
Qed.

(** With a case folding that leaves the empty string empty, the check on a
    list of strings compares folded names. *)

Hypothesis lower_empty : lower EmptyString = EmptyString.

Lemma normalize_platform_str (s : string) :
  normalize_platform lower (JStr s) = Ok (lower s).
Proof.
  unfold normalize_platform, truthy. destruct s; [|reflexivity].
  simpl. now rewrite lower_empty.
Qed.

Lemma match_object_platforms_strings (e : string) (ps : list string) :
  match_object_platforms lower e (map JStr ps) =
  Ok (existsb (fun p => String.eqb (lower p) (lower e)) ps).
Proof.
  induction ps as [|p rest IH]; simpl; [reflexivity|].
  rewrite !normalize_platform_str. simpl.
  destruct (String.eqb (lower p) (lower e)); [reflexivity | exact IH].
Qed.

Lemma match_expanded_strings (es : list string) (ps : list string) :
  match_expanded lower es (JArr (map JStr ps)) =
  Ok (existsb (fun e => existsb (fun p => String.eqb (lower p) (lower e)) ps) es).
Proof.
  induction es as [|e rest IH]; simpl; [reflexivity|].
  rewrite match_object_platforms_strings. simpl.
  destruct (existsb _ ps); [reflexivity | exact IH].
Qed.

Lemma platform_check_strings (m : list (string * json)) (target : string)
  (ps : list string) :
  field m "x_mitre_platforms" = Some (JArr (map JStr ps)) ->
  platform_check lower (JObj m) target = Ok (platform_matches lower target ps).
Proof.
  intros H. unfold platform_check, platform_matches, bind. cbn [get_or].
  rewrite H. destruct ps as [|p rest].
  - simpl. now rewrite existsb_nowhere.
  - cbn [map truthy negb].
    exact (match_expanded_strings (get_expanded_platforms target) (p :: rest)).
Qed.
End ProcessorFacts.

Lemma Ok_inj {A : Type} (a b : A) : Ok a = Ok b -> a = b.
Proof. now intros [= ->]. Qed.

Lemma expanded_containers :
  MitreProcessor2.get_expanded_platforms "containers" = Vocabulary.container_names.
Proof. reflexivity. Qed.

Lemma expanded_other (target : string) :
  target <> "containers" -> MitreProcessor2.get_expanded_platforms target = [target].
Proof.
  intros Hne.
  unfold MitreProcessor2.get_expanded_platforms, MitreProcessor2.PLATFORM_MAPPING.
  cbn [Dict.get].
  destruct (string_dec "containers" target); [congruence | reflexivity].
Qed.

Section ProcessorClaims.
Import MitreProcessor2 Vocabulary.
Variable lower : string -> string.

(** C9 (amended).  For every input document that decodes to a JSON object
    whose [objects], when present, is a list of JSON objects whose
    [x_mitre_platforms], when present, is a list of strings, and for every
    platform, [process_mitre] selects exactly the attack-pattern objects
    of the input that match the platform, in input order.  When at least
    one is selected, the result has them as its [objects] and copies the
    top-level [type], [id] and [spec_version] of the input ("Unknown" for
    a field the input lacks); when none is selected, it returns [None] and
    logs a warning. *)
Theorem process_mitre_selects_matching_techniques
  (open_read : string -> result string) (json_load : string -> result json)
  (json_file_path platform f : string) (m : list (string * json)) :
  open_read json_file_path = Ok f ->
  json_load f = Ok (JObj m) ->
  well_formed_bundle (JObj m) = true ->
  exists objs,
    document_objects (JObj m) = Ok objs
    /\ process_mitre lower open_read json_load json_file_path platform =
       match filter (selected lower platform) objs with
       | [] =>
           Ok (None,
               [("WARNING",
                 ("No relevant techniques found for platform "
                  ++ platform)%string)])
       | o :: kept =>
           Ok (Some (JObj [("objects", JArr (o :: kept));
                           ("type", field_or_unknown m "type");
                           ("id", field_or_unknown m "id");
                           ("spec_version", field_or_unknown m "spec_version")]),
               [])
       end.
Proof.
  intros Hopen Hload Hwf.
  assert (Hobjs : exists objs,
             document_objects (JObj m) = Ok objs
             /\ forallb checkable_object objs = true).
  { unfold well_formed_bundle in Hwf. unfold document_objects, bind.
    cbn [get_or]. destruct (field m "objects") as [v|].
    - destruct v as [| | | |objs|]; try discriminate. now exists objs.
    - now exists []. }
  destruct Hobjs as (objs & Hobjs & Hall). exists objs.
  split; [exact Hobjs|].
  unfold process_mitre, bind. rewrite Hopen, Hload.
  unfold filter_document. unfold document_objects in Hobjs. unfold bind in *.
  destruct (get_or (JObj m) "objects" (JArr [])) as [v|]; [|discriminate].
  rewrite Hobjs, (filter_objects_checkable lower platform objs Hall).
  destruct (filter (selected lower platform) objs); reflexivity.
Qed.

(** C10.  An object whose [x_mitre_platforms] is missing or empty is
    excluded for every target.  On an object whose platforms are strings,
    the check compares names through [str.lower]: the target "containers"
    matches exactly when some platform of the object is, up to case, one of
    "container", "containers", "docker", "podman", "kubernetes"; every
    other target matches exactly when some platform of the object is, up
    to case, the target itself; and changing the case of the object's
    platforms does not change the outcome.  Of [str.lower] the statement
    uses that it leaves the empty string and these five lower-case names
    as they are. *)
Theorem platform_check_matches (m : list (string * json)) (target : string) :
  lower EmptyString = EmptyString ->
  (forall e, In e container_names -> lower e = e) ->
  (field m "x_mitre_platforms" = None
   \/ field m "x_mitre_platforms" = Some (JArr []) ->
   platform_check lower (JObj m) target = Ok false)
  /\ (forall ps : list string,
        field m "x_mitre_platforms" = Some (JArr (map JStr ps)) ->
        (exists b, platform_check lower (JObj m) target = Ok b)
        /\ (target = "containers" ->
            (platform_check lower (JObj m) target = Ok true <->
             exists p, In p ps /\ In (lower p) container_names))
        /\ (target <> "containers" ->
            (platform_check lower (JObj m) target = Ok true <->
             exists p, In p ps /\ lower p = lower target))
        /\ (forall (m' : list (string * json)) (ps' : list string),
              field m' "x_mitre_platforms" = Some (JArr (map JStr ps')) ->
              map lower ps' = map lower ps ->
              platform_check lower (JObj m') target
              = platform_check lower (JObj m) target)).
Proof.
  intros Hempty Hnames. split.
  - unfold platform_check, bind. cbn [get_or]. intros [-> | ->]; reflexivity.
  - intros ps Hps. rewrite (platform_check_strings lower Hempty m target ps Hps).
    split; [eexists; reflexivity|]. split; [|split].
    + intros ->. unfold platform_matches. rewrite expanded_containers.
      split.
      * intros H. apply Ok_inj, existsb_exists in H. destruct H as (e & He & H).
        apply existsb_exists in H. destruct H as (p & Hp & H).
        apply String.eqb_eq in H. exists p. split; [exact Hp|].
        rewrite H, (Hnames e He). exact He.
      * intros (p & Hp & Hin). f_equal. apply existsb_exists.
        exists (lower p). split; [exact Hin|].
        apply existsb_exists. exists p. split; [exact Hp|].
        apply String.eqb_eq. now rewrite (Hnames (lower p) Hin).
    + intros Hne. unfold platform_matches. rewrite (expanded_other target Hne).
      simpl. rewrite orb_false_r. split.
      * intros H. apply Ok_inj in H. apply existsb_exists in H.
        destruct H as (p & Hp & H).
        apply String.eqb_eq in H. now exists p.
      * intros (p & Hp & H). f_equal. apply existsb_exists. exists p.
        split; [exact Hp | now apply String.eqb_eq].
    + intros m' ps' Hps' Hcase.
      rewrite (platform_check_strings lower Hempty m' target ps' Hps').
      f_equal. now apply platform_matches_case.
Qed.
End ProcessorClaims.

Section ProcessorClaimsWitnesses.
Import MitreProcessor2 Vocabulary.

Lemma process_mitre_selects_matching_techniques_witness :
  exists objs,
    document_objects windows_bundle = Ok objs
    /\ process_mitre ascii_lower (fun _ => Ok "bundle") (fun _ => Ok windows_bundle)
         "enterprise-attack.json" "windows" =
       match filter (selected ascii_lower "windows") objs with
       | [] =>
           Ok (None,
               [("WARNING", "No relevant techniques found for platform windows")])
       | o :: kept =>
           Ok (Some (JObj [("objects", JArr (o :: kept));
                           ("type", JStr "bundle"); ("id", JStr "bundle--1");
                           ("spec_version", JStr "2.0")]), [])
       end.
Proof.
  exact (process_mitre_selects_matching_techniques ascii_lower
           (fun _ => Ok "bundle") (fun _ => Ok windows_bundle)
           "enterprise-attack.json" "windows" "bundle" _
           eq_refl eq_refl eq_refl).
Defined.

(** C9 as stated fails: on a bundle whose only technique is for Windows,
    with platform "linux", [process_mitre] returns [None], not a result
    holding the empty subset. *)
Lemma process_mitre_counterexample :
  ~ (forall (lower : string -> string)
            (open_read : string -> result string)
            (json_load : string -> result json)
            (json_file_path platform f : string) (m : list (string * json)),
        open_read json_file_path = Ok f ->
        json_load f = Ok (JObj m) ->
        well_formed_bundle (JObj m) = true ->
        exists r lg,
          process_mitre lower open_read json_load json_file_path platform =
          Ok (Some r, lg)).
Proof.
  intros H.
  destruct (H ascii_lower (fun _ => Ok "bundle") (fun _ => Ok windows_bundle)
              "enterprise-attack.json" "linux" "bundle" _
              eq_refl eq_refl eq_refl) as (r & lg & E).
  vm_compute in E. discriminate.
Qed.

Lemma ascii_lower_container_names :
  forall e, In e container_names -> ascii_lower e = e.
Proof.
  intros e H. unfold container_names in H. simpl in H.
  destruct H as [<-|[<-|[<-|[<-|[<-|[]]]]]]; reflexivity.
Defined.

Lemma platform_check_matches_witness :
  platform_check ascii_lower
    (JObj [("type", JStr "attack-pattern");
           ("x_mitre_platforms", JArr [JStr "Linux"; JStr "Docker"])])
    "containers" = Ok true.
Proof.
  apply (proj2 (proj1 (proj2 (proj2 (platform_check_matches ascii_lower
           [("type", JStr "attack-pattern");
            ("x_mitre_platforms", JArr [JStr "Linux"; JStr "Docker"])]
           "containers" eq_refl ascii_lower_container_names)
           ["Linux"; "Docker"] eq_refl)) eq_refl)).
  exists "Docker". split; simpl; tauto.
Defined.
End ProcessorClaimsWitnesses.

(** * More on the graph builder *)

Section BuilderOrder.
Import MitreJson Vocabulary Notions.
Variable vec : Type.
Implicit Types (G : DiGraph vec) (k : key).

Lemma push_key_present (l : list key) k : In k l -> push_key l k = l.
Proof. unfold push_key. intros H. now destruct (in_dec key_dec k l). Qed.

Lemma keys_set_push {V : Type} (d : list (key * V)) k v :
  Dict.keys (Dict.set key_dec d k v) = push_key (Dict.keys d) k.
Proof.
  rewrite keys_set. unfold push_key.
  destruct (Dict.mem key_dec d k) eqn:E;
    destruct (in_dec key_dec k (Dict.keys d)) as [i|n]; try reflexivity.
  - apply mem_true_iff in E. contradiction.
  - apply mem_false_iff in E. contradiction.
Qed.

Lemma ensure_node_order G k :
  node_keys (ensure_node G k) = push_key (node_keys G) k.
Proof.
  unfold ensure_node, node_keys. destruct (Dict.mem key_dec G k) eqn:E.
  - apply mem_true_iff in E. now rewrite push_key_present.
  - apply keys_set_push.
Qed.

Lemma add_node_order G n kw G' :
  add_node G n kw = Ok G' ->
  exists k, node_key n = Ok k /\ node_keys G' = push_key (node_keys G) k.
Proof.
  unfold add_node, bind. destruct (node_key n) as [k|]; [|discriminate].
  intros H. exists k. split; [reflexivity|].
  destruct (Dict.get key_dec G k); injection H as <-; apply keys_set_push.
Qed.

Lemma add_edge_order G s t kw G' :
  add_edge G s t kw = Ok G' ->
  exists ku kv, node_key s = Ok ku /\ node_key t = Ok kv /\
    node_keys G' = push_key (push_key (node_keys G) ku) kv.
Proof.
  unfold add_edge, bind. destruct (node_key s) as [ku|]; [|discriminate].
  destruct (node_key t) as [kv|]; [|discriminate].
  destruct (Dict.get key_dec (ensure_node (ensure_node G ku) kv) ku) eqn:E;
    [|discriminate].
  intros H. injection H as <-. exists ku, kv.
  split; [reflexivity|]. split; [reflexivity|].
  unfold node_keys at 1. rewrite keys_set_push.
  fold (node_keys (ensure_node (ensure_node G ku) kv)).
  rewrite push_key_present.
  - now rewrite !ensure_node_order.
  - apply in_keys_ensure_node. left. apply in_keys_ensure_node. now right.
Qed.

Lemma add_object_order G obj G' :
  add_object G obj = Ok G' ->
  node_keys G' = fold_left push_key (object_keys obj) (node_keys G).
Proof.
  destruct obj as [| | | | |m]; try discriminate.
  unfold add_object, object_keys, object_identity, endpoint_keys, emits_edge.
  unfold node_id, node_name, get_or, getitem, bind.
  destruct (field m "type") as [ty|] eqn:Ety.
  2:{ simpl. now intros [= <-]. }
  destruct (in_strs ty node_types) eqn:Ein.
  2:{ intros [= <-]. now rewrite (relationship_is_node_type _ Ein). }
  destruct (add_node G _ _) as [G1|] eqn:E1; [|discriminate].
  apply add_node_order in E1. destruct E1 as (k1 & Hk1 & Hord1).
  unfold key_list. rewrite Hk1.
  destruct (eq_str ty "relationship"); cbn [andb].
  - destruct (truthy _ && truthy _).
    + intros H. apply add_edge_order in H.
      destruct H as (ku & kv & Hu & Hv & Hord).
      rewrite Hu, Hv, Hord, Hord1. reflexivity.
    + intros [= <-]. now rewrite Hord1.
  - intros [= <-]. now rewrite Hord1.
Qed.

Lemma add_objects_order objs : forall G G',
  add_objects G objs = Ok G' ->
  node_keys G' = fold_left push_key (flat_map object_keys objs) (node_keys G).
Proof.
  induction objs as [|obj rest IH]; simpl; intros G G' H.
  - now injection H as <-.
  - unfold bind in H. destruct (add_object G obj) as [G1|] eqn:E1; [|discriminate].
    rewrite fold_left_app, <- (add_object_order _ _ _ E1). now apply IH.
Qed.

Lemma add_entry_order G entry G' :
  add_entry G entry = Ok G' ->
  node_keys G' =
  fold_left push_key (flat_map object_keys (entry_objects entry)) (node_keys G).
Proof.
  unfold add_entry, entry_objects, bind.
  destruct (contains entry "objects") as [[|]|]; try discriminate.
  - destruct (getitem entry "objects") as [objs|]; [|discriminate].
    destruct (iter objs) as [l|]; [|discriminate].
    apply add_objects_order.
  - now intros [= <-].
Qed.

Lemma add_entries_order data : forall G G',
  add_entries G data = Ok G' ->
  node_keys G' = fold_left push_key (data_keys data) (node_keys G).
Proof.
  unfold data_keys, all_objects.
  induction data as [|entry rest IH]; simpl; intros G G' H.
  - now injection H as <-.
  - unfold bind in H. destruct (add_entry G entry) as [G1|] eqn:E1; [|discriminate].
    rewrite flat_map_app, fold_left_app, <- (add_entry_order _ _ _ E1).
    now apply IH.
Qed.

(** X1.  The nodes of the graph the builder returns are enumerated in the
    order in which their keys are first touched: for each object in
    document order its identity key, then, for a relationship that emits
    an edge, its source and its target. *)
Theorem node_order_is_first_touch (data : list json) (G : DiGraph vec) :
  build_knowledge_graph data = Ok G ->
  node_keys G = first_occurrences (data_keys data).
Proof.
  intros H. unfold build_knowledge_graph in H.
  now apply add_entries_order in H.
Qed.
End BuilderOrder.

Lemma node_order_is_first_touch_witness :
  Nx.node_keys (vec := unit)
    [(KStr "T1", mkNode [("label", AJson (JStr "Phishing"));
                         ("type", AJson (JStr "attack-pattern"))]
                        [(KStr "T2", [("relationship", AJson (JStr "uses"))])]);
     (KStr "T2", mkNode [("label", AJson (JStr "Exploitation"));
                         ("type", AJson (JStr "attack-pattern"))] []);
     (KStr "unknown", mkNode [("label", AJson (JStr "Unnamed"));
                              ("type", AJson (JStr "relationship"))] [])]
  = Notions.first_occurrences (Vocabulary.data_keys MitreJson.scenario).
Proof.
  exact (node_order_is_first_touch unit MitreJson.scenario _ eq_refl).
Defined.

Section BuilderEdges.
Import MitreJson Vocabulary Notions.
Variable vec : Type.
Implicit Types (G : DiGraph vec) (k : key).

Lemma add_node_edges G n kw G' :
  add_node G n kw = Ok G' ->
  forall u v, edge_attrs G' u v = edge_attrs G u v.
Proof.
  unfold add_node, bind. destruct (node_key n) as [k|]; [|discriminate].
  destruct (Dict.get key_dec G k) as [e|] eqn:E; intros [= <-] u v;
    rewrite edge_attrs_set; destruct (key_dec k u) as [<-|]; try reflexivity;
    unfold edge_attrs; rewrite E; reflexivity.
Qed.

Lemma add_node_other_attrs G n kw G' k1 k :
  add_node G n kw = Ok G' -> node_key n = Ok k1 -> k <> k1 ->
  node_attrs G' k = node_attrs G k.
Proof.
  unfold add_node, bind, node_attrs. intros H Hk Hne. rewrite Hk in H.
  destruct (Dict.get key_dec G k1); injection H as <-;
    rewrite get_set_other by congruence; reflexivity.
Qed.

Lemma add_edge_edges G s t kw G' ku kv :
  add_edge G s t kw = Ok G' -> node_key s = Ok ku -> node_key t = Ok kv ->
  forall u v,
    edge_attrs G' u v =
    if key_dec ku u then
      if key_dec kv v then
        Some (update match edge_attrs G ku kv with
                     | Some d => d
                     | None => []
                     end kw)
      else edge_attrs G u v
    else edge_attrs G u v.
Proof.
  unfold add_edge, bind. intros H Hs Ht. rewrite Hs, Ht in H.
  set (G2 := ensure_node (ensure_node G ku) kv) in *.
  assert (H2 : forall u v, edge_attrs G2 u v = edge_attrs G u v).
  { intros u v. unfold G2. now rewrite !edge_attrs_ensure. }
  destruct (Dict.get key_dec G2 ku) as [e|] eqn:E; [|discriminate].
  injection H as <-. intros u v. rewrite edge_attrs_set.
  assert (Hsucc : forall x, Dict.get key_dec (node_succ e) x = edge_attrs G ku x).
  { intros x. rewrite <- H2. unfold edge_attrs. now rewrite E. }
  destruct (key_dec ku u) as [<-|]; [|apply H2].
  cbn [node_succ]. rewrite get_set. rewrite !Hsucc.
  destruct (key_dec kv v); reflexivity.
Qed.

(** X2.  A relationship object with a truthy [source_ref] and a truthy
    [target_ref] leaves an edge from the source key to the target key whose
    ['relationship'] attribute is the object's [relationship_type], or
    "related-to" when the object has none; an edge that was already there
    has its label overwritten. *)
Theorem relationship_labels_its_edge (G G' : DiGraph vec)
  (m : list (string * json)) (s t : json) :
  field m "type" = Some (JStr "relationship") ->
  field m "source_ref" = Some s -> field m "target_ref" = Some t ->
  truthy s = true -> truthy t = true ->
  add_object G (JObj m) = Ok G' ->
  exists ku kv a,
    node_key s = Ok ku /\ node_key t = Ok kv
    /\ edge_attrs G' ku kv = Some a
    /\ Dict.get string_dec a "relationship" = Some (AJson (spec_relationship m)).
Proof.
  intros Hty Hs Ht Hts Htt. unfold add_object, node_id, node_name, bind.
  cbn [get_or getitem]. rewrite Hty, Hs, Ht, Hts, Htt.
  cbn [in_strs node_types existsb eq_str String.eqb Ascii.eqb Bool.eqb orb andb].
  destruct (add_node G _ _) as [G1|]; [|discriminate].
  intros H. destruct (add_edge_keys _ _ _ _ _ _ H) as (ku & kv & Hu & Hv & _).
  exists ku, kv. eexists. split; [exact Hu|]. split; [exact Hv|].
  rewrite (add_edge_edges _ _ _ _ _ _ _ H Hu Hv).
  destruct (key_dec ku ku); [|contradiction].
  destruct (key_dec kv kv); [|contradiction].
  split; [reflexivity|]. unfold update. cbn [fold_left fst snd].
  apply get_set_same.
Qed.

(** X3.  An object that is not a relationship with two truthy endpoints
    adds no edge and changes none: the edges of the graph are those it had
    before. *)
Theorem only_complete_relationships_touch_edges (G G' : DiGraph vec) (obj : json) :
  add_object G obj = Ok G' ->
  emits_edge obj = false ->
  forall u v, edge_attrs G' u v = edge_attrs G u v.
Proof.
  destruct obj as [| | | | |m]; try discriminate.
  unfold add_object, emits_edge, node_id, node_name, bind.
  cbn [get_or getitem].
  destruct (field m "type") as [ty|]; [|simpl; now intros [= <-]].
  destruct (in_strs ty node_types); [|now intros [= <-]].
  destruct (add_node G _ _) as [G1|] eqn:E1; [|discriminate].
  pose proof (add_node_edges _ _ _ _ E1) as Hedges.
  destruct (eq_str ty "relationship"); [|now intros [= <-]].
  cbn [andb]. intros H Hno. rewrite Hno in H. now injection H as <-.
Qed.

(** X4.  Processing an object leaves the attributes of every node other
    than the object's own untouched; in particular the endpoints of its
    edge keep the label and type they had. *)
Theorem other_nodes_keep_their_attributes (G G' : DiGraph vec) (obj : json)
  (k : key) (a : attrs vec) :
  add_object G obj = Ok G' ->
  node_attrs G k = Some a ->
  ~ In k (object_identity node_types obj) ->
  node_attrs G' k = Some a.
Proof.
  unfold add_object, object_identity, bind.
  destruct (get_or obj "type" JNull) as [ty|]; [|discriminate].
  destruct (in_strs ty node_types); [|now intros [= <-]].
  destruct (node_id obj) as [nid|]; [|discriminate].
  destruct (node_name obj) as [nname|]; [|discriminate].
  destruct (getitem obj "type") as [ty'|]; [|discriminate].
  destruct (add_node G nid _) as [G1|] eqn:E1; [|discriminate].
  intros H Ha Hk.
  destruct (add_node_keys _ _ _ _ _ E1) as (k1 & Hk1 & _).
  unfold key_list in Hk. rewrite Hk1 in Hk. simpl in Hk.
  assert (Ha1 : node_attrs G1 k = Some a).
  { rewrite (add_node_other_attrs _ _ _ _ k1 k E1 Hk1); [exact Ha|].
    intros ->. tauto. }
  destruct (eq_str ty "relationship"); [|now injection H as <-].
  destruct (get_or obj "source_ref" JNull) as [s|]; [|discriminate].
  destruct (get_or obj "target_ref" JNull) as [t|]; [|discriminate].
  destruct (get_or obj "relationship_type" _) as [r|]; [|discriminate].
  destruct (truthy s && truthy t); [|now injection H as <-].
  eapply add_edge_keeps_attrs; eauto.
Qed.

Lemma fold_push_extends (l : list key) : forall acc,
  exists new, fold_left push_key l acc = acc ++ new.
Proof.
  induction l as [|k rest IH]; simpl; intros acc.
  - exists []. now rewrite app_nil_r.
  - destruct (IH (push_key acc k)) as [new Hnew]. rewrite Hnew.
    unfold push_key. destruct (in_dec key_dec k acc).
    + now exists new.
    + exists (k :: new). now rewrite <- app_assoc.
Qed.

Lemma add_entries_app pre post : forall G,
  add_entries G (pre ++ post) =
  (G1 <- add_entries G pre ;; add_entries G1 post).
Proof.
  induction pre as [|entry rest IH]; simpl; intros G; [reflexivity|].
  unfold bind at 1 3. destruct (add_entry G entry); [apply IH | reflexivity].
Qed.

(** X5.  Appending documents to the input never reorders or drops the
    nodes of the graph of the shorter input: its node enumeration is a
    prefix of the enumeration of the longer one. *)
Theorem more_documents_extend_the_enumeration (pre post : list json)
  (G1 G : DiGraph vec) :
  build_knowledge_graph pre = Ok G1 ->
  build_knowledge_graph (pre ++ post) = Ok G ->
  exists new, node_keys G = node_keys G1 ++ new.
Proof.
  unfold build_knowledge_graph. intros H1 H.
  rewrite add_entries_app, H1 in H. simpl in H.
  rewrite (add_entries_order _ _ _ _ H). apply fold_push_extends.
Qed.

Lemma add_objects_raise pre obj post e : forall G G1,
  add_objects G pre = Ok G1 -> add_object G1 obj = Raise e ->
  add_objects G (pre ++ obj :: post) = Raise e.
Proof.
  induction pre as [|o rest IH]; simpl; intros G G1 Hpre Hobj.
  - injection Hpre as <-. now rewrite Hobj.
  - unfold bind in *. destruct (add_object G o); [|discriminate]. eauto.
Qed.

Lemma add_entries_raise pre entry post e : forall G G1,
  add_entries G pre = Ok G1 -> add_entry G1 entry = Raise e ->
  add_entries G (pre ++ entry :: post) = Raise e.
Proof.
  induction pre as [|o rest IH]; simpl; intros G G1 Hpre Hentry.
  - injection Hpre as <-. now rewrite Hentry.
  - unfold bind in *. destruct (add_entry G o); [|discriminate]. eauto.
Qed.

Lemma add_object_unusable_key G (m : list (string * json)) (ty : json) (e : exn) :
  field m "type" = Some ty -> in_strs ty node_types = true ->
  node_key (spec_identity m) = Raise e ->
  add_object G (JObj m) = Raise e.
Proof.
  intros Hty Hin Hkey. unfold add_object, bind. cbn [get_or getitem].
  rewrite Hty, Hin.
  change (node_id (JObj m)) with (Ok (spec_identity m)).
  change (node_name (JObj m)) with (Ok (spec_label m)). cbv beta iota.
  unfold add_node, bind. now rewrite Hkey.
Qed.

(** X6.  An object of a recognized type whose identity is [null] makes the
    build raise [ValueError], and one whose identity is a list or a dict
    makes it raise [TypeError], wherever the object stands among
    well-formed documents and objects: no graph is returned. *)
Theorem unusable_identity_aborts_the_build
  (pre post : list json) (objs1 objs2 : list json)
  (rest : list (string * json)) (m : list (string * json)) (ty : json) :
  well_formed_data pre = true ->
  forallb well_formed_object objs1 = true ->
  field m "type" = Some ty -> in_strs ty node_types = true ->
  let data :=
    pre ++ JObj (("objects", JArr (objs1 ++ JObj m :: objs2)) :: rest) :: post in
  (spec_identity m = JNull ->
   @build_knowledge_graph vec data = Raise ValueError)
  /\ ((exists l, spec_identity m = JArr l) \/ (exists f, spec_identity m = JObj f) ->
      @build_knowledge_graph vec data = Raise TypeError).
Proof.
  intros Hpre Hobjs Hty Hin data.
  destruct (build_total vec pre Hpre) as [G0 HG0].
  destruct (add_objects_total vec objs1 G0 Hobjs) as [G1 HG1].
  assert (Hraise : forall e, node_key (spec_identity m) = Raise e ->
                     @build_knowledge_graph vec data = Raise e).
  { intros e He. unfold build_knowledge_graph, data.
    apply (add_entries_raise _ _ _ _ _ G0 HG0).
    unfold add_entry, bind. cbn [contains getitem].
    unfold Dict.mem, field. cbn [Dict.get].
    destruct (string_dec "objects" "objects"); [|contradiction].
    cbn [iter]. apply (add_objects_raise _ _ _ _ _ G1 HG1).
    now apply (add_object_unusable_key _ _ ty). }
  split.
  - intros E. apply Hraise. now rewrite E.
  - intros [[l E]|[f E]]; apply Hraise; now rewrite E.
Qed.
End BuilderEdges.

Section BuilderEdgesWitnesses.
Import MitreJson Vocabulary Notions.

Lemma relationship_labels_its_edge_witness :
  exists ku kv a,
    node_key (JStr "A") = Ok ku /\ node_key (JStr "B") = Ok kv
    /\ edge_attrs (vec := unit) (graph_of (add_object empty (JObj lone_fields)))
         ku kv = Some a
    /\ Dict.get string_dec a "relationship"
       = Some (AJson (spec_relationship lone_fields)).
Proof.
  exact (relationship_labels_its_edge unit empty _ lone_fields
           (JStr "A") (JStr "B") eq_refl eq_refl eq_refl eq_refl eq_refl eq_refl).
Defined.

Lemma only_complete_relationships_touch_edges_witness :
  edge_attrs (vec := unit)
    (graph_of (add_object empty
                 (JObj [("type", JStr "relationship");
                        ("source_ref", JStr "A")]))) (KStr "A") (KStr "B")
  = edge_attrs empty (KStr "A") (KStr "B").
Proof.
  exact (only_complete_relationships_touch_edges unit empty _
           (JObj [("type", JStr "relationship"); ("source_ref", JStr "A")])
           eq_refl eq_refl (KStr "A") (KStr "B")).
Defined.

Lemma other_nodes_keep_their_attributes_witness :
  node_attrs (vec := unit)
    (graph_of (add_object
                 [(KStr "A", mkNode [("label", AJson (JStr "Alpha"))] [])]
                 lone_relationship)) (KStr "A")
  = Some [("label", AJson (JStr "Alpha"))].
Proof.
  apply (other_nodes_keep_their_attributes unit
           [(KStr "A", mkNode [("label", AJson (JStr "Alpha"))] [])] _
           lone_relationship (KStr "A") _ eq_refl eq_refl).
  simpl. intros [E|[]]. discriminate.
Defined.

Lemma more_documents_extend_the_enumeration_witness :
  exists new,
    node_keys (vec := unit)
      (graph_of (build_knowledge_graph
                   (scenario ++ [JObj [("objects", JArr [lone_relationship])]])))
    = node_keys (vec := unit) (graph_of (build_knowledge_graph scenario)) ++ new.
Proof.
  exact (more_documents_extend_the_enumeration unit scenario
           [JObj [("objects", JArr [lone_relationship])]] _ _ eq_refl eq_refl).
Defined.

Lemma unusable_identity_aborts_the_build_witness :
  @build_knowledge_graph unit
    [JObj [("objects", JArr [JObj [("type", JStr "tool"); ("id", JNull)]])]]
  = Raise ValueError.
Proof.
  exact (proj1 (unusable_identity_aborts_the_build unit [] [] [] [] []
                  [("type", JStr "tool"); ("id", JNull)] (JStr "tool")
                  eq_refl eq_refl eq_refl eq_refl) eq_refl).
Defined.
End BuilderEdgesWitnesses.

(** * More on the embedding indexer *)

Section IndexerFrame.
Import MitreJson Vocabulary Notions.
Variable vec : Type.
Implicit Types (G : DiGraph vec) (k : key).

Lemma dict_set_same {K V : Type} (K_dec : forall a b : K, {a = b} + {a <> b})
  (d : list (K * V)) (k : K) (v : V) :
  Dict.get K_dec d k = Some v -> Dict.set K_dec d k v = d.
Proof.
  induction d as [|[k' v'] r IH]; simpl; [discriminate|].
  destruct (K_dec k' k); intros H.
  - now injection H as ->.
  - now rewrite IH.
Qed.

Lemma get_view {B : Type} (f : node vec -> B) G k :
  Dict.get key_dec (map (fun kn => (fst kn, f (snd kn))) G) k
  = option_map f (Dict.get key_dec G k).
Proof.
  induction G as [|[k' e] r IH]; simpl; [reflexivity|].
  now destruct (key_dec k' k).
Qed.

(** Whatever does not look at the ['embedding'] attribute is the same
    before and after [G.nodes[k]['embedding'] = x]. *)
Lemma set_embedding_view {B : Type} (f : node vec -> B) G k x G' :
  (forall e, f (mkNode (Dict.set string_dec (node_attr e) "embedding" x)
                       (node_succ e)) = f e) ->
  set_node_attr G k "embedding" x = Ok G' ->
  map (fun kn => (fst kn, f (snd kn))) G' = map (fun kn => (fst kn, f (snd kn))) G.
Proof.
  intros Hf. unfold set_node_attr.
  destruct (Dict.get key_dec G k) as [e|] eqn:E; [|discriminate].
  intros [= <-]. revert E.
  induction G as [|[k' e'] r IH]; simpl; [discriminate|].
  destruct (key_dec k' k); intros H.
  - injection H as ->. simpl. now rewrite Hf.
  - simpl. now rewrite IH.
Qed.

Lemma store_embeddings_view {B : Type} (f : node vec -> B) embs nl :
  (forall e x, f (mkNode (Dict.set string_dec (node_attr e) "embedding" x)
                         (node_succ e)) = f e) ->
  forall G i G',
    store_embeddings G i nl embs = Ok G' ->
    map (fun kn => (fst kn, f (snd kn))) G' = map (fun kn => (fst kn, f (snd kn))) G.
Proof.
  intros Hf. induction nl as [|[nid a] rest IH]; simpl; intros G i G' H.
  - now injection H as <-.
  - destruct (nth_error embs i) as [e|]; [|discriminate].
    unfold bind in H.
    destruct (set_node_attr G nid "embedding" (AVec e)) as [G1|] eqn:E1;
      [|discriminate].
    rewrite (IH _ _ _ H). eapply set_embedding_view; eauto.
Qed.

Lemma label_text_set_embedding (a : attrs vec) x :
  label_text (Dict.set string_dec a "embedding" x) = label_text a.
Proof. unfold label_text. now rewrite get_set_other by discriminate. Qed.

Variable encode : list (attr_value vec) -> result (list vec).
Variable normalize_L2 : vec -> vec.

(** X7.  A successful run of the indexer changes nothing of the graph but
    the ['embedding'] attributes: the nodes keep their enumeration order,
    the texts that would be encoded are the same, every edge keeps its
    attributes, and every other node attribute keeps its value. *)
Theorem indexer_only_writes_embeddings (index index' : list vec)
  (G G' : DiGraph vec) :
  generate_embeddings_and_index encode normalize_L2 index G = Ok (index', G') ->
  node_keys G' = node_keys G
  /\ texts_of G' = texts_of G
  /\ (forall u v, edge_attrs G' u v = edge_attrs G u v)
  /\ (forall k name, name <> "embedding" ->
        option_map (fun a => Dict.get string_dec a name) (node_attrs G' k)
        = option_map (fun a => Dict.get string_dec a name) (node_attrs G k)).
Proof.
  unfold generate_embeddings_and_index, bind.
  destruct (encode _) as [embs|]; [|discriminate].
  destruct (faiss_normalize_L2 normalize_L2 embs) as [rows|]; [|discriminate].
  destruct (store_embeddings G 0 (nodes_data G) rows)
    as [G1|] eqn:E; [|discriminate].
  intros [= _ <-]. split; [|split; [|split]].
  - pose proof (store_embeddings_view (fun _ => tt) _ _ (fun _ _ => eq_refl)
                  _ _ _ E) as H.
    apply (f_equal (map fst)) in H. rewrite !map_map in H. exact H.
  - pose proof (store_embeddings_view (fun e => label_text (node_attr e)) _ _
                  (fun e x => label_text_set_embedding (node_attr e) x)
                  _ _ _ E) as H.
    apply (f_equal (map snd)) in H. rewrite !map_map in H.
    unfold texts_of, nodes_data. rewrite !map_map. exact H.
  - intros u v.
    pose proof (store_embeddings_view (@node_succ vec) _ _ (fun _ _ => eq_refl)
                  _ _ _ E) as H.
    apply (f_equal (fun d => Dict.get key_dec d u)) in H. cbv beta in H.
    rewrite !(get_view (@node_succ vec)) in H. unfold edge_attrs.
    destruct (Dict.get key_dec G1 u), (Dict.get key_dec G u);
      simpl in H; try discriminate; [|reflexivity].
    now injection H as ->.
  - intros k name Hname.
    pose proof (store_embeddings_view
                  (fun e => Dict.get string_dec (node_attr e) name) _ _
                  (fun e x => get_set_other string_dec (node_attr e)
                                "embedding" x name (not_eq_sym Hname))
                  _ _ _ E) as H.
    apply (f_equal (fun d => Dict.get key_dec d k)) in H. cbv beta in H.
    rewrite !(get_view (fun e => Dict.get string_dec (node_attr e) name)) in H. unfold node_attrs.
    destruct (Dict.get key_dec G1 k), (Dict.get key_dec G k);
      simpl in *; congruence.
Qed.

Lemma store_embeddings_short embs nl : forall G i,
  (forall k, In k (map fst nl) -> has_node G k = true) ->
  i <= length embs -> length embs < i + length nl ->
  store_embeddings G i nl embs = Raise IndexError.
Proof.
  induction nl as [|[nid a] rest IH]; simpl; intros G i Hhas Hle Hlt; [lia|].
  destruct (nth_error embs i) as [e|] eqn:Ee; [|reflexivity].
  assert (i < length embs) by (apply nth_error_Some; congruence).
  destruct (set_node_attr_spec vec G nid "embedding" (AVec e))
    as (G1 & old & E1 & Hkeys1 & _); [apply Hhas; now left|].
  rewrite E1. simpl. apply IH; [|lia|lia].
  intros k Hk. apply has_node_iff. rewrite Hkeys1. apply has_node_iff.
  apply Hhas. now right.
Qed.

(** X8.  When the encoder returns fewer vectors than the graph has nodes,
    the indexer raises [IndexError] while writing the embeddings back. *)
Theorem too_few_vectors_raise (index : list vec) (G : DiGraph vec)
  (embs : list vec) :
  encode (texts_of G) = Ok embs ->
  length embs < length (nodes_data G) ->
  generate_embeddings_and_index encode normalize_L2 index G = Raise IndexError.
Proof.
  intros Henc Hlen. unfold generate_embeddings_and_index, bind.
  unfold texts_of in Henc. rewrite Henc.
  destruct embs as [|e embs]; [reflexivity|].
  cbn [faiss_normalize_L2].
  rewrite (store_embeddings_short (map normalize_L2 (e :: embs)) (nodes_data G) G 0).
  - reflexivity.
  - intros k Hk. apply has_node_iff. now rewrite <- nodes_data_keys.
  - lia.
  - rewrite length_map. lia.
Qed.

Lemma set_node_attr_same G k name x (a : attrs vec) :
  node_attrs G k = Some a -> Dict.get string_dec a name = Some x ->
  set_node_attr G k name x = Ok G.
Proof.
  unfold node_attrs, set_node_attr. intros Ha Hx.
  destruct (Dict.get key_dec G k) as [e|] eqn:E; [|discriminate].
  injection Ha as <-. rewrite (dict_set_same string_dec _ _ _ Hx).
  destruct e as [ea es]. simpl. now rewrite (dict_set_same key_dec _ _ _ E).
Qed.

Lemma store_embeddings_noop embs nl : forall G i,
  (forall j k, nth_error (map fst nl) j = Some k ->
     exists e a, nth_error embs (i + j) = Some e
                 /\ node_attrs G k = Some a
                 /\ Dict.get string_dec a "embedding" = Some (AVec e)) ->
  store_embeddings G i nl embs = Ok G.
Proof.
  induction nl as [|[nid x] rest IH]; simpl; intros G i H; [reflexivity|].
  destruct (H 0 nid eq_refl) as (e & a & He & Ha & Hg).
  rewrite Nat.add_0_r in He. rewrite He.
  rewrite (set_node_attr_same _ _ _ _ _ Ha Hg). simpl.
  apply IH. intros j k Hj. destruct (H (S j) k Hj) as (e' & a' & He' & Ha' & Hg').
  exists e', a'. rewrite Nat.add_succ_r in He'. tauto.
Qed.

(** X9.  The module-level index is never reset.  A run on an index that
    already holds vectors keeps them at their positions and appends the
    new ones after them, the [i]-th node of the snapshot landing at
    position [length index + i]; and a second run on the same graph
    leaves the graph as the first run left it while the index receives
    every vector a second time.  (The graph has nodes: on a graph without
    nodes the run raises.) *)
Theorem index_accumulates_across_runs (index : list vec) (G : DiGraph vec)
  (embs : list vec) :
  NoDup (node_keys G) ->
  nodes_data G <> [] ->
  encode (texts_of G) = Ok embs ->
  length embs = length (nodes_data G) ->
  exists G',
    generate_embeddings_and_index encode normalize_L2 index G
    = Ok (index ++ map normalize_L2 embs, G')
    /\ (forall i k, nth_error (node_keys G) i = Some k ->
          exists e, nth_error embs i = Some e
                    /\ nth_error (index ++ map normalize_L2 embs)
                         (length index + i) = Some (normalize_L2 e))
    /\ generate_embeddings_and_index encode normalize_L2
         (index ++ map normalize_L2 embs) G'
       = Ok ((index ++ map normalize_L2 embs) ++ map normalize_L2 embs, G').
Proof.
  intros Hnd Hne Henc Hlen.
  assert (Hrows : faiss_normalize_L2 normalize_L2 embs
                  = Ok (map normalize_L2 embs)).
  { apply faiss_normalize_L2_rows. intros ->.
    destruct (nodes_data G); [contradiction | discriminate]. }
  destruct (store_embeddings_spec vec (map normalize_L2 embs) (nodes_data G) G 0)
    as (G' & E & Hkeys & Hpos & _).
  { now rewrite nodes_data_keys. }
  { intros k Hk. apply has_node_iff. now rewrite <- nodes_data_keys. }
  { rewrite length_map. lia. }
  assert (Hrun : generate_embeddings_and_index encode normalize_L2 index G
                 = Ok (index ++ map normalize_L2 embs, G')).
  { unfold generate_embeddings_and_index, bind. unfold texts_of in Henc.
    now rewrite Henc, Hrows, E. }
  exists G'. split; [exact Hrun|]. split.
  - intros i k Hi. rewrite <- nodes_data_keys in Hi.
    destruct (Hpos i k Hi) as (e' & a & He' & _). simpl in He'.
    rewrite nth_error_map in He'.
    destruct (nth_error embs i) as [e|] eqn:Ee; [|discriminate].
    exists e. split; [reflexivity|].
    rewrite nth_error_app2 by lia.
    replace (length index + i - length index) with i by lia.
    now rewrite nth_error_map, Ee.
  - assert (Htexts : texts_of G' = texts_of G).
    { pose proof (store_embeddings_view (fun e => label_text (node_attr e)) _ _
                    (fun e x => label_text_set_embedding (node_attr e) x)
                    _ _ _ E) as Ht.
      apply (f_equal (map snd)) in Ht. rewrite !map_map in Ht.
      unfold texts_of, nodes_data. rewrite !map_map. exact Ht. }
    pose proof Hkeys as Hk'.
    unfold generate_embeddings_and_index, bind.
    fold (texts_of G'). rewrite Htexts, Henc, Hrows.
    rewrite (store_embeddings_noop (map normalize_L2 embs) (nodes_data G') G' 0);
      [reflexivity|].
    intros j k Hj. rewrite nodes_data_keys, Hk', <- nodes_data_keys in Hj.
    exact (Hpos j k Hj).
Qed.
End IndexerFrame.

Section IndexerFrameWitnesses.
Import MitreJson Vocabulary Notions.

Lemma indexer_only_writes_embeddings_witness :
  texts_of (snd (match generate_embeddings_and_index toy_encode toy_normalize []
                         scenario_graph with
                 | Ok r => r
                 | Raise _ => ([], empty)
                 end))
  = texts_of scenario_graph.
Proof.
  exact (proj1 (proj2 (indexer_only_writes_embeddings toy_vec toy_encode
                         toy_normalize [] _ scenario_graph _ eq_refl))).
Defined.

Lemma too_few_vectors_raise_witness :
  generate_embeddings_and_index (fun _ => Ok [[1%Z]]) toy_normalize []
    scenario_graph = Raise IndexError.
Proof.
  exact (too_few_vectors_raise toy_vec (fun _ => Ok [[1%Z]]) toy_normalize []
           scenario_graph [[1%Z]] eq_refl (le_n_S _ _ (le_S _ _ (le_n 1)))).
Defined.

Lemma index_accumulates_across_runs_witness :
  exists G',
    generate_embeddings_and_index toy_encode toy_normalize [[1; 0]]%Z
      scenario_graph
    = Ok ([[1; 0]; [1; 0]; [1; 0]; [1; 0]]%Z, G')
    /\ generate_embeddings_and_index toy_encode toy_normalize
         [[1; 0]; [1; 0]; [1; 0]; [1; 0]]%Z G'
       = Ok ([[1; 0]; [1; 0]; [1; 0]; [1; 0]; [1; 0]; [1; 0]; [1; 0]]%Z, G').
Proof.
  destruct (index_accumulates_across_runs toy_vec toy_encode toy_normalize
              [[1; 0]]%Z scenario_graph [[8; 0]; [12; 0]; [7; 0]]%Z)
    as (G' & Hrun & _ & Hagain).
  - repeat constructor; simpl; intuition discriminate.
  - discriminate.
  - reflexivity.
  - reflexivity.
  - exists G'. split; [exact Hrun | exact Hagain].
Defined.
End IndexerFrameWitnesses.

(** * More on the corpus loader *)

Section LoaderExtras.
Import MitreJson Vocabulary Notions.

Lemma length_string_app (a b : string) :
  String.length (a ++ b) = String.length a + String.length b.
Proof. induction a as [|c a IH]; simpl; [reflexivity | now rewrite IH]. Qed.

Lemma substring_skip (a b : string) (n m : nat) :
  substring (String.length a + n) m (a ++ b) = substring n m b.
Proof. induction a as [|c a IH]; simpl; [reflexivity | exact IH]. Qed.

Lemma endswith_app (a b suffix : string) :
  endswith b suffix = true -> endswith (a ++ b) suffix = true.
Proof.
  unfold endswith. intros H. apply andb_true_iff in H. destruct H as [Hle Heq].
  apply Nat.leb_le in Hle. apply andb_true_iff. split.
  - apply Nat.leb_le. rewrite length_string_app. lia.
  - rewrite length_string_app.
    replace (String.length a + String.length b - String.length suffix)
      with (String.length a + (String.length b - String.length suffix)) by lia.
    now rewrite substring_skip.
Qed.

Lemma path_join_endswith (path file suffix : string) :
  endswith file suffix = true -> endswith (path_join path file) suffix = true.
Proof.
  intros H. unfold path_join. destruct (prefix "/" file); [exact H|].
  destruct (String.eqb path EmptyString || endswith path "/").
  - now apply endswith_app.
  - now apply endswith_app, endswith_app.
Qed.

(** X10.  Whatever the path and the directory listing, every candidate
    the loader opens has a name that ends in ".json". *)
Theorem candidates_end_in_json
  (isdir : string -> bool) (listdir : string -> result (list string))
  (path : string) (files : list string) :
  json_files isdir listdir path = Ok files ->
  forall file, In file files -> endswith file ".json" = true.
Proof.
  unfold json_files, bind. destruct (isdir path).
  - destruct (listdir path) as [entries|]; [|discriminate].
    intros [= <-] file Hin. apply in_map_iff in Hin.
    destruct Hin as (entry & <- & Hentry). apply filter_In in Hentry.
    now apply path_join_endswith.
  - destruct (endswith path ".json") eqn:E; intros [= <-] file Hin.
    + destruct Hin as [<-|[]]. exact E.
    + destruct Hin.
Qed.

Lemma loaded_plus_skipped (open_read : string -> result string)
  (json_load : string -> result json) (files : list string) :
  forallb (loads_or_skips open_read json_load) files = true ->
  length (parsed_documents open_read json_load files)
  + length (filter (undecodable open_read json_load) files) = length files.
Proof.
  induction files as [|file rest IH]; simpl; [reflexivity|].
  intros H. apply andb_true_iff in H. destruct H as [Hfile Hrest].
  specialize (IH Hrest). unfold loads_or_skips, undecodable, parsed_documents in *.
  simpl. destruct (open_read file) as [f|]; [|discriminate].
  destruct (json_load f) as [content|e]; simpl.
  - lia.
  - destruct e; try discriminate. simpl. lia.
Qed.

(** X11.  When every candidate can be opened and decoding raises nothing
    but JSON decode errors, each candidate is accounted for exactly once:
    the number of documents returned plus the number of diagnostics
    printed is the number of candidates, and what had been printed before
    the call is kept. *)
Theorem every_candidate_is_loaded_or_reported
  (isdir : string -> bool) (listdir : string -> result (list string))
  (open_read : string -> result string) (json_load : string -> result json)
  (path : string) (out : list string) (files : list string) :
  json_files isdir listdir path = Ok files ->
  forallb (loads_or_skips open_read json_load) files = true ->
  exists docs msgs,
    load_json_files isdir listdir open_read json_load path out
    = (Ok docs, out ++ msgs)
    /\ length docs + length msgs = length files.
Proof.
  intros Hfiles Hall. unfold load_json_files. rewrite Hfiles.
  rewrite load_loop_spec by exact Hall. simpl.
  eexists. eexists. split; [reflexivity|].
  rewrite length_map. now apply loaded_plus_skipped.
Qed.

Lemma load_loop_app (open_read : string -> result string)
  (json_load : string -> result json) (pre rest : list string) :
  forallb (loads_or_skips open_read json_load) pre = true ->
  forall data out,
    load_loop open_read json_load (pre ++ rest) data out =
    load_loop open_read json_load rest
      (data ++ parsed_documents open_read json_load pre)
      (out ++ map skip_message (filter (undecodable open_read json_load) pre)).
Proof.
  induction pre as [|file pre IH]; simpl; intros Hall data out.
  - now rewrite !app_nil_r.
  - apply andb_true_iff in Hall. destruct Hall as [Hfile Hpre].
    unfold loads_or_skips, undecodable in *.
    destruct (open_read file) as [f|]; [|discriminate].
    destruct (json_load f) as [content|e].
    + rewrite (IH Hpre). now rewrite <- app_assoc.
    + destruct e; try discriminate.
      rewrite (IH Hpre). simpl. now rewrite <- app_assoc.
Qed.

(** X12.  The first candidate that cannot be opened, or whose decoding
    raises anything other than a JSON decode error, ends the load with
    that exception: the documents read so far are lost to the caller, the
    later candidates are not opened, and only the diagnostics of the
    earlier candidates have been printed. *)
Theorem first_unreadable_candidate_aborts
  (isdir : string -> bool) (listdir : string -> result (list string))
  (open_read : string -> result string) (json_load : string -> result json)
  (path : string) (out : list string) (pre post : list string)
  (file : string) (e : exn) :
  json_files isdir listdir path = Ok (pre ++ file :: post) ->
  forallb (loads_or_skips open_read json_load) pre = true ->
  open_read file = Raise e
  \/ (exists f, open_read file = Ok f /\ json_load f = Raise e
                /\ e <> JSONDecodeError) ->
  load_json_files isdir listdir open_read json_load path out
  = (Raise e,
     out ++ map skip_message (filter (undecodable open_read json_load) pre)).
Proof.
  intros Hfiles Hpre Hfail. unfold load_json_files. rewrite Hfiles.
  rewrite load_loop_app by exact Hpre. simpl.
  destruct Hfail as [-> | (f & -> & -> & Hne)]; [reflexivity|].
  destruct e; try reflexivity. contradiction.
Qed.

Lemma candidates_end_in_json_witness :
  endswith "corpus/b.json" ".json" = true.
Proof.
  apply (candidates_end_in_json corpus_isdir corpus_listdir "corpus" _ eq_refl).
  simpl. tauto.
Defined.

Lemma every_candidate_is_loaded_or_reported_witness :
  exists docs msgs,
    load_json_files corpus_isdir corpus_listdir corpus_open corpus_json_load
      "corpus" ["earlier"]
    = (Ok docs, ["earlier"] ++ msgs)
    /\ length docs + length msgs = 2.
Proof.
  exact (every_candidate_is_loaded_or_reported corpus_isdir corpus_listdir
           corpus_open corpus_json_load "corpus" ["earlier"] _ eq_refl eq_refl).
Defined.

Lemma first_unreadable_candidate_aborts_witness :
  load_json_files corpus_isdir
    (fun _ => Ok ["b.json"; "gone.json"; "a.json"])
    corpus_open corpus_json_load "corpus" []
  = (Raise FileNotFoundError, ["Skipping invalid JSON file: corpus/b.json"]).
Proof.
  exact (first_unreadable_candidate_aborts corpus_isdir
           (fun _ => Ok ["b.json"; "gone.json"; "a.json"])
           corpus_open corpus_json_load "corpus" []
           ["corpus/b.json"] ["corpus/a.json"] "corpus/gone.json"
           FileNotFoundError eq_refl eq_refl (or_introl eq_refl)).
Defined.
End LoaderExtras.

(** * More on the platform filter *)

Section ProcessorExtras.
Import MitreProcessor2 Vocabulary Notions.
Variable lower : string -> string.

Lemma selected_inv (platform : string) (o : json) :
  selected lower platform o = true ->
  get_or o "type" JNull = Ok (JStr "attack-pattern")
  /\ platform_check lower o platform = Ok true.
Proof.
  unfold selected. destruct (get_or o "type" JNull) as [ty|]; [|discriminate].
  intros H. apply andb_true_iff in H. destruct H as [Hty Hcheck]. split.
  - destruct ty; try discriminate. simpl in Hty.
    apply String.eqb_eq in Hty. now subst.
  - destruct (platform_check lower o platform) as [b|]; [|discriminate]. now subst.
Qed.

Lemma filter_document_shape (mitre_data : json) (platform : string)
  (r : json) (lg : log) :
  filter_document lower mitre_data platform = Ok (Some r, lg) ->
  exists objs kept ty id sv,
    document_objects mitre_data = Ok objs
    /\ filter_objects lower objs platform = Ok kept
    /\ kept <> []
    /\ r = JObj [("objects", JArr kept); ("type", ty); ("id", id);
                 ("spec_version", sv)]
    /\ lg = [].
Proof.
  unfold filter_document, document_objects, bind.
  destruct (get_or mitre_data "objects" (JArr [])) as [v|]; [|discriminate].
  destruct (iter v) as [objs|]; [|discriminate].
  destruct (filter_objects lower objs platform) as [kept|] eqn:E; [|discriminate].
  destruct kept as [|o kept]; [discriminate|].
  destruct (get_or mitre_data "type" _) as [ty|]; [|discriminate].
  destruct (get_or mitre_data "id" _) as [id|]; [|discriminate].
  destruct (get_or mitre_data "spec_version" _) as [sv|]; [|discriminate].
  intros [= <- <-]. exists objs, (o :: kept), ty, id, sv.
  split; [reflexivity|]. split; [exact E|]. split; [discriminate|].
  split; reflexivity.
Qed.

(** X13.  Whenever [process_mitre] returns a document, the document has
    exactly the four fields [objects], [type], [id], [spec_version] in
    that order; its [objects] is never empty; every object in it has type
    "attack-pattern" and passes the platform check; and nothing was
    logged at WARNING or ERROR level. *)
Theorem returned_document_holds_only_matches
  (open_read : string -> result string) (json_load : string -> result json)
  (json_file_path platform : string) (r : json) (lg : log) :
  process_mitre lower open_read json_load json_file_path platform = Ok (Some r, lg) ->
  exists kept ty id sv,
    r = JObj [("objects", JArr kept); ("type", ty); ("id", id);
              ("spec_version", sv)]
    /\ kept <> []
    /\ lg = []
    /\ forall o, In o kept ->
         get_or o "type" JNull = Ok (JStr "attack-pattern")
         /\ platform_check lower o platform = Ok true.
Proof.
  unfold process_mitre.
  destruct (f <- open_read json_file_path ;; json_load f) as [mitre_data|e].
  2:{ destruct e; discriminate. }
  intros H. apply filter_document_shape in H.
  destruct H as (objs & kept & ty & id & sv & _ & Hf & Hne & -> & ->).
  exists kept, ty, id, sv. repeat split; try assumption; try reflexivity;
    apply filter_objects_spec in Hf; subst kept;
    apply filter_In in H; destruct H as [_ H]; now apply selected_inv in H.
Qed.

Lemma filter_objects_again (platform : string) (objs : list json) :
  forall kept,
    filter_objects lower objs platform = Ok kept ->
    filter_objects lower kept platform = Ok kept.
Proof.
  induction objs as [|o rest IH]; simpl; intros kept H.
  - now injection H as <-.
  - unfold bind in H.
    destruct (get_or o "type" JNull) as [ty|] eqn:Ety; [|discriminate].
    destruct (eq_str ty "attack-pattern") eqn:Eap.
    + destruct (platform_check lower o platform) as [keep|] eqn:Ec; [|discriminate].
      destruct (filter_objects lower rest platform) as [kept'|]; [|discriminate].
      specialize (IH kept' eq_refl). injection H as <-.
      destruct keep; [|exact IH].
      simpl. unfold bind. now rewrite Ety, Eap, Ec, IH.
    + destruct (filter_objects lower rest platform) as [kept'|]; [|discriminate].
      specialize (IH kept' eq_refl). now injection H as <-.
Qed.

(** X14.  Filtering is idempotent: the document [process_mitre] builds for
    a platform, filtered again for the same platform, is returned
    unchanged. *)
Theorem filtering_twice_changes_nothing (mitre_data : json) (platform : string)
  (r : json) (lg : log) :
  filter_document lower mitre_data platform = Ok (Some r, lg) ->
  filter_document lower r platform = Ok (Some r, []).
Proof.
  intros H. apply filter_document_shape in H.
  destruct H as (objs & kept & ty & id & sv & _ & Hf & Hne & -> & _).
  apply filter_objects_again in Hf.
  remember [("objects", JArr kept); ("type", ty); ("id", id);
            ("spec_version", sv)] as rm eqn:Erm.
  assert (H1 : field rm "objects" = Some (JArr kept)) by now subst rm.
  assert (H2 : field rm "type" = Some ty) by now subst rm.
  assert (H3 : field rm "id" = Some id) by now subst rm.
  assert (H4 : field rm "spec_version" = Some sv) by now subst rm.
  unfold filter_document, bind. cbn [get_or]. rewrite H1, H2, H3, H4.
  cbn [iter]. rewrite Hf. subst rm. destruct kept; [contradiction|]. reflexivity.
Qed.

Lemma expanded_names_nonempty (target : string) :
  target <> EmptyString ->
  Forall (fun e => e <> EmptyString) (get_expanded_platforms target).
Proof.
  intros Hne. destruct (string_dec target "containers") as [->|Hother].
  - rewrite expanded_containers. repeat constructor; discriminate.
  - rewrite (expanded_other target Hother). now repeat constructor.
Qed.

Lemma expanded_nonempty (target : string) :
  exists e rest, get_expanded_platforms target = e :: rest.
Proof.
  destruct (string_dec target "containers") as [->|Hother].
  - rewrite expanded_containers. eexists. eexists. reflexivity.
  - rewrite (expanded_other target Hother). eexists. eexists. reflexivity.
Qed.

Lemma normalize_platform_falsy (v : json) :
  truthy v = false -> normalize_platform lower v = Ok EmptyString.
Proof. unfold normalize_platform. now intros ->. Qed.

Lemma match_object_platforms_falsy_head (e : string) (v : json)
  (ps : list string) :
  (forall s, lower s = EmptyString <-> s = EmptyString) ->
  e <> EmptyString -> truthy v = false ->
  match_object_platforms lower e (v :: map JStr ps) =
  Ok (existsb (fun p => String.eqb (lower p) (lower e)) ps).
Proof.
  intros Hlower He Hv. cbn [match_object_platforms].
  assert (Hempty : lower EmptyString = EmptyString) by now apply Hlower.
  rewrite (normalize_platform_falsy v Hv), (normalize_platform_str lower Hempty).
  unfold bind.
  destruct (String.eqb EmptyString (lower e)) eqn:E.
  - apply String.eqb_eq in E. symmetry in E. apply (proj1 (Hlower e)) in E.
    contradiction.
  - now apply match_object_platforms_strings.
Qed.

(** X15.  A falsy entry of [x_mitre_platforms] ([null], [false], [0], an
    empty string, list or dict) is compared as the empty name and raises
    nothing: for a non-empty target, an object whose platform list starts
    with such an entry matches exactly when the remaining names match.
    Of [str.lower] the statement uses that it maps the empty string, and
    no other, to the empty string. *)
Theorem falsy_platform_entries_never_match (m : list (string * json))
  (target : string) (v : json) (ps : list string) :
  (forall s, lower s = EmptyString <-> s = EmptyString) ->
  target <> EmptyString ->
  truthy v = false ->
  field m "x_mitre_platforms" = Some (JArr (v :: map JStr ps)) ->
  platform_check lower (JObj m) target = Ok (platform_matches lower target ps).
Proof.
  intros Hlower Htarget Hv Hfield. unfold platform_check, platform_matches, bind.
  cbn [get_or]. rewrite Hfield. cbn [truthy negb].
  pose proof (expanded_names_nonempty target Htarget) as Hnames.
  induction Hnames as [|e es He Hes IH]; [reflexivity|].
  cbn [match_expanded iter existsb]. unfold bind.
  rewrite (match_object_platforms_falsy_head e v ps Hlower He Hv).
  destruct (existsb _ ps); [reflexivity | exact IH].
Qed.

(** X16.  A truthy entry that is not a string (a number, [true], a list or
    a dict) at the head of [x_mitre_platforms] makes the check raise
    [AttributeError], whatever the target. *)
Theorem non_string_platform_raises (m : list (string * json))
  (target : string) (v : json) (rest : list json) :
  truthy v = true ->
  (forall s, v <> JStr s) ->
  field m "x_mitre_platforms" = Some (JArr (v :: rest)) ->
  platform_check lower (JObj m) target = Raise AttributeError.
Proof.
  intros Hv Hns Hfield. unfold platform_check, bind. cbn [get_or].
  rewrite Hfield. cbn [truthy negb].
  destruct (expanded_nonempty target) as (e & es & ->).
  cbn [match_expanded iter]. cbn [bind]. cbn [match_object_platforms].
  assert (Hn : normalize_platform lower v = Raise AttributeError).
  { unfold normalize_platform. rewrite Hv.
    destruct v; try reflexivity. exfalso. now apply (Hns s). }
  rewrite Hn. reflexivity.
Qed.
End ProcessorExtras.

Section ProcessorExtrasWitnesses.
Import MitreProcessor2 Vocabulary Notions.

Lemma ascii_lower_empty_iff (s : string) :
  ascii_lower s = EmptyString <-> s = EmptyString.
Proof.
  destruct s; simpl; split; intros H; try reflexivity; discriminate.
Defined.

Lemma returned_document_holds_only_matches_witness :
  exists kept ty id sv,
    JObj [("objects", JArr
             [JObj [("type", JStr "attack-pattern"); ("name", JStr "Run Key");
                    ("x_mitre_platforms", JArr [JStr "Windows"])]]);
          ("type", JStr "bundle"); ("id", JStr "bundle--1");
          ("spec_version", JStr "2.0")]
    = JObj [("objects", JArr kept); ("type", ty); ("id", id);
            ("spec_version", sv)]
    /\ kept <> []
    /\ @nil (string * string) = []
    /\ forall o, In o kept ->
         get_or o "type" JNull = Ok (JStr "attack-pattern")
         /\ platform_check ascii_lower o "windows" = Ok true.
Proof.
  exact (returned_document_holds_only_matches ascii_lower
           (fun _ => Ok "bundle") (fun _ => Ok windows_bundle)
           "enterprise-attack.json" "windows" _ _ eq_refl).
Defined.

Lemma filtering_twice_changes_nothing_witness :
  filter_document ascii_lower
    (JObj [("objects", JArr
              [JObj [("type", JStr "attack-pattern"); ("name", JStr "Run Key");
                     ("x_mitre_platforms", JArr [JStr "Windows"])]]);
           ("type", JStr "bundle"); ("id", JStr "bundle--1");
           ("spec_version", JStr "2.0")]) "windows"
  = Ok (Some (JObj [("objects", JArr
              [JObj [("type", JStr "attack-pattern"); ("name", JStr "Run Key");
                     ("x_mitre_platforms", JArr [JStr "Windows"])]]);
           ("type", JStr "bundle"); ("id", JStr "bundle--1");
           ("spec_version", JStr "2.0")]), []).
Proof.
  exact (filtering_twice_changes_nothing ascii_lower windows_bundle "windows" _ _ eq_refl).
Defined.

Lemma falsy_platform_entries_never_match_witness :
  platform_check ascii_lower
    (JObj [("x_mitre_platforms", JArr [JNull; JStr "Linux"])]) "linux"
  = Ok true.
Proof.
  exact (falsy_platform_entries_never_match ascii_lower
           [("x_mitre_platforms", JArr [JNull; JStr "Linux"])] "linux"
           JNull ["Linux"] ascii_lower_empty_iff
           (fun E : "linux" = EmptyString =>
              eq_ind "linux" (fun s => match s with
                                       | EmptyString => False
                                       | String _ _ => True
                                       end) I _ E)
           eq_refl eq_refl).
Defined.

Lemma non_string_platform_raises_witness :
  platform_check ascii_lower
    (JObj [("x_mitre_platforms", JArr [JNum 7; JStr "Linux"])]) "linux"
  = Raise AttributeError.
Proof.
  apply (non_string_platform_raises ascii_lower
           [("x_mitre_platforms", JArr [JNum 7; JStr "Linux"])] "linux"
           (JNum 7) [JStr "Linux"] eq_refl); [|reflexivity].
  intros s E. discriminate.
Defined.
End ProcessorExtrasWitnesses.

(** * The entry points *)

Section PathFacts.
Import MitreJson MitreProcessor2Main Notions.

Lemma string_app_snoc (a r : string) (c : ascii) :
  ((a ++ String c EmptyString) ++ r)%string = (a ++ String c r)%string.
Proof. induction a as [|x a IH]; simpl; [reflexivity | now rewrite IH]. Qed.

Lemma slash_free_cons (c : ascii) (r : string) :
  slash_free (String c r) = true ->
  Ascii.eqb c "/" = false /\ slash_free r = true.
Proof.
  unfold slash_free. simpl. rewrite negb_orb. intros H.
  apply andb_true_iff in H. destruct H as [Hc Hr]. split; [|exact Hr].
  now destruct (Ascii.eqb c "/").
Qed.

Lemma basename_from_slash_free (f : string) :
  slash_free f = true -> forall acc, basename_from acc f = (acc ++ f)%string.
Proof.
  induction f as [|c r IH]; intros Hf acc; simpl.
  - induction acc as [|x a IHa]; simpl; [reflexivity | now rewrite <- IHa].
  - apply slash_free_cons in Hf. destruct Hf as [Hc Hr].
    rewrite Hc, (IH Hr). apply string_app_snoc.
Qed.

Lemma basename_from_app (d f : string) :
  slash_free f = true ->
  forall acc, basename_from acc (d ++ f) = (basename_from acc d ++ f)%string.
Proof.
  intros Hf. induction d as [|c d IH]; intros acc; simpl.
  - now apply basename_from_slash_free.
  - destruct (Ascii.eqb c "/"); apply IH.
Qed.

Lemma basename_from_separator (d f : string) :
  forall acc, basename_from acc (d ++ String "/" f) = basename_from EmptyString f.
Proof.
  induction d as [|c d IH]; intros acc; simpl; [reflexivity|].
  destruct (Ascii.eqb c "/"); apply IH.
Qed.

Lemma basename_from_trailing_slash (d : string) :
  endswith d "/" = true -> forall acc, basename_from acc d = EmptyString.
Proof.
  induction d as [|c d IH]; intros H acc; [discriminate|].
  destruct d as [|c' d'].
  - unfold endswith in H. simpl in H. simpl.
    destruct (Ascii.eqb c "/") eqn:E; [reflexivity|].
    rewrite ?E in H. simpl in H. discriminate.
  - assert (Hd : endswith (String c' d') "/" = true).
    { unfold endswith in *. simpl in *. rewrite Nat.sub_0_r in *. exact H. }
    change (basename_from acc (String c (String c' d')))
      with (if Ascii.eqb c "/" then basename_from EmptyString (String c' d')
            else basename_from (acc ++ String c EmptyString)%string (String c' d')).
    destruct (Ascii.eqb c "/"); exact (IH Hd _).
Qed.

Lemma slash_free_not_absolute (f : string) :
  slash_free f = true -> prefix "/" f = false.
Proof.
  destruct f as [|c r]; intros H; [reflexivity|].
  apply slash_free_cons in H. destruct H as [Hc _]. cbn [prefix].
  destruct (ascii_dec "/" c) as [<-|]; [discriminate | reflexivity].
Qed.

Lemma basename_path_join (dir name : string) :
  slash_free name = true -> basename (path_join dir name) = name.
Proof.
  intros Hname. unfold basename, path_join.
  rewrite (slash_free_not_absolute name Hname).
  destruct (String.eqb dir EmptyString) eqn:Edir.
  - apply String.eqb_eq in Edir. subst dir. simpl.
    now rewrite basename_from_slash_free.
  - destruct (endswith dir "/") eqn:Eslash; simpl.
    + rewrite (basename_from_app dir name Hname).
      now rewrite (basename_from_trailing_slash dir Eslash).
    + rewrite basename_from_separator. now rewrite basename_from_slash_free.
Qed.
End PathFacts.

Section ProcessorMainClaims.
Import MitreJson MitreProcessor2 MitreProcessor2Main Notions.
Variable lower : string -> string.
Variable makedirs : string -> result unit.
Variable open_read : string -> result string.
Variable json_load : string -> result json.
Variable write_json : string -> json -> result unit.
Variable str_exn : exn -> string.

Local Abbreviation run :=
  (main lower makedirs open_read json_load write_json str_exn).

(** X17.  Once the output directory exists, [main] never raises: whatever
    reading, filtering or writing raises is caught and reported.  It
    prints exactly one line and writes at most one file; a file is written
    only with the document [process_mitre] returned, after a successful
    write, and when the input path is [dir] joined with a slash-free
    [name] the file is [output_dir] joined with that same [name]. *)
Theorem main_reports_and_writes_once
  (dir name platform output_dir : string) :
  makedirs output_dir = Ok tt ->
  slash_free name = true ->
  exists eff,
    run (path_join dir name) platform output_dir = Ok eff
    /\ length (printed eff) = 1
    /\ length (written eff) <= 1
    /\ forall p d, In (p, d) (written eff) ->
         p = path_join output_dir name
         /\ write_json p d = Ok tt
         /\ exists lg,
              process_mitre lower open_read json_load (path_join dir name)
                platform
              = Ok (Some d, lg).
Proof.
  intros Hmk Hname. unfold main, bind. rewrite Hmk.
  rewrite (basename_path_join dir name Hname).
  destruct (process_mitre lower open_read json_load (path_join dir name) platform)
    as [[[d|] lg]|e].
  - destruct (truthy d).
    + destruct (write_json (path_join output_dir name) d) as [[]|e] eqn:Ew.
      * eexists. split; [reflexivity|]. simpl. split; [reflexivity|].
        split; [lia|]. intros p d' [[= <- <-]|[]].
        split; [reflexivity|]. split; [exact Ew|]. now exists lg.
      * eexists. split; [reflexivity|]. simpl. split; [reflexivity|].
        split; [lia|]. intros p d' [].
    + eexists. split; [reflexivity|]. simpl. split; [reflexivity|].
      split; [lia|]. intros p d' [].
  - eexists. split; [reflexivity|]. simpl. split; [reflexivity|].
    split; [lia|]. intros p d' [].
  - eexists. split; [reflexivity|]. simpl. split; [reflexivity|].
    split; [lia|]. intros p d' [].
Qed.
End ProcessorMainClaims.

Section JsonMainClaims.
Import MitreJson MitreJsonMain Vocabulary Notions.
Variable isdir : string -> bool.
Variable listdir : string -> result (list string).
Variable open_read : string -> result string.
Variable json_load : string -> result json.
Variable vec : Type.
Variable encode : list (attr_value vec) -> result (list vec).
Variable normalize_L2 : vec -> vec.

(** X18.  The three stages compose.  When every candidate is loaded or
    skipped, the loaded documents are well formed and the encoder returns
    one vector per text, the script ends with the success message printed
    after the skip diagnostics; the nodes of the graph are the keys the
    loaded documents touch, in first-touch order, and the index has grown
    by exactly one vector per node.  (The documents touch at least one
    key: on a graph without nodes the indexer raises.) *)
Theorem pipeline_builds_an_aligned_store
  (path : string) (index : list vec) (out : list string) (files : list string) :
  json_files isdir listdir path = Ok files ->
  forallb (loads_or_skips open_read json_load) files = true ->
  well_formed_data (parsed_documents open_read json_load files) = true ->
  data_keys (parsed_documents open_read json_load files) <> [] ->
  one_vector_per_text encode ->
  let docs := parsed_documents open_read json_load files in
  exists index' G,
    main isdir listdir open_read json_load vec encode normalize_L2 path index out
    = (Ok (index', G),
       out ++ map skip_message (filter (undecodable open_read json_load) files)
           ++ [success_message])
    /\ node_keys G = first_occurrences (data_keys docs)
    /\ length index' = length index + length (nodup key_dec (data_keys docs)).
Proof.
  intros Hfiles Hall Hwf Hkeys0 Henc docs. unfold main, load_json_files.
  rewrite Hfiles, (load_loop_spec _ _ _ Hall). simpl. fold docs.
  destruct (build_total vec docs Hwf) as [G0 HG0]. rewrite HG0.
  destruct (build_keys vec docs G0 HG0) as [Hnd Hin].
  destruct (Henc (texts_of G0)) as (embs & Hembs & Hlen).
  unfold texts_of in Hembs, Hlen. rewrite length_map in Hlen.
  destruct (store_embeddings_spec vec (map normalize_L2 embs) (nodes_data G0) G0 0)
    as (G & E & Hkeys & _).
  { now rewrite nodes_data_keys. }
  { intros k Hk. apply has_node_iff. now rewrite <- nodes_data_keys. }
  { rewrite length_map. lia. }
  assert (Hrows : faiss_normalize_L2 normalize_L2 embs
                  = Ok (map normalize_L2 embs)).
  { apply faiss_normalize_L2_rows. intros ->. simpl in Hlen.
    assert (Hnone : node_keys G0 = []).
    { rewrite <- (nodes_data_keys vec G0).
      destruct (nodes_data G0); [reflexivity | discriminate]. }
    apply Hkeys0. fold docs. destruct (data_keys docs) as [|k rest];
      [reflexivity|].
    exfalso. assert (Hk : In k (node_keys G0)) by (apply Hin; now left).
    rewrite Hnone in Hk. destruct Hk. }
  unfold generate_embeddings_and_index, bind. rewrite Hembs, Hrows, E.
  exists (index ++ map normalize_L2 embs), G.
  split; [now rewrite <- app_assoc|]. split.
  - rewrite Hkeys. unfold build_knowledge_graph in HG0.
    now rewrite (add_entries_order vec _ _ _ HG0).
  - rewrite length_app, length_map, Hlen.
    rewrite <- (same_elements_same_length (node_keys G0) (data_keys docs) Hnd Hin).
    unfold nodes_data, node_keys, Dict.keys. now rewrite !length_map.
Qed.
End JsonMainClaims.

Section MainWitnesses.
Import MitreJson MitreProcessor2 MitreJsonMain MitreProcessor2Main Vocabulary Notions.

Lemma main_reports_and_writes_once_witness :
  exists eff,
    MitreProcessor2Main.main ascii_lower (fun _ => Ok tt) (fun _ => Ok "bundle")
      (fun _ => Ok windows_bundle) (fun _ _ => Ok tt) (fun _ => "error")
      (path_join "data" "enterprise-attack.json") "windows" "output" = Ok eff
    /\ length (printed eff) = 1.
Proof.
  destruct (main_reports_and_writes_once ascii_lower (fun _ => Ok tt) (fun _ => Ok "bundle")
              (fun _ => Ok windows_bundle) (fun _ _ => Ok tt) (fun _ => "error")
              "data" "enterprise-attack.json" "windows" "output" eq_refl eq_refl)
    as (eff & Hrun & Hprinted & _).
  exists eff. split; [exact Hrun | exact Hprinted].
Defined.

Lemma toy_encode_one_vector_per_text : one_vector_per_text toy_encode.
Proof.
  intros texts. eexists. split; [reflexivity|]. apply length_map.
Defined.

Lemma pipeline_builds_an_aligned_store_witness :
  exists index' G,
    MitreJsonMain.main corpus_isdir corpus_listdir scenario_open
      scenario_json_load toy_vec toy_encode toy_normalize "corpus" [] []
    = (Ok (index', G),
       ["Skipping invalid JSON file: corpus/b.json"; success_message])
    /\ node_keys G = [KStr "T1"; KStr "T2"; KStr "unknown"]
    /\ length index' = 3.
Proof.
  destruct (pipeline_builds_an_aligned_store corpus_isdir corpus_listdir
              scenario_open scenario_json_load toy_vec toy_encode toy_normalize
              "corpus" [] [] _ eq_refl eq_refl eq_refl)
    as (index' & G & Hrun & Hkeys & Hlen).
  - discriminate.
  - exact toy_encode_one_vector_per_text.
  - exists index', G. split; [exact Hrun|]. split; [exact Hkeys | exact Hlen].
Defined.
End MainWitnesses.
